(** * PID simulator: control law and pendulum physics, verified against the source

    The development embeds the JavaScript sources of the simulator

      - [pid-controller.js]           (module [Basic]),
      - [pid-controller-enhanced.js]  (module [Enhanced]),
      - the first  [BalancingRobot] class (module [Robot0]),
      - the second [BalancingRobot] class (module [Robot1]),
      - the [animate] loop of [PIDSimulatorApp] (module [App]),
      - the data arrays of [PerformanceGraph] (module [Graph]),

    as pure functions with explicit state passing.  Every method takes the
    object it is invoked on as its first argument and returns the updated
    object.  The two impure primitives the code calls are made explicit
    inputs: each [Date.now()] is an integer argument (milliseconds), and
    [Math.random()] is a number argument.

    Numbers.  A JavaScript number is modelled by [num]: the three
    non-finite values [NaN], [+Infinity], [-Infinity] and the finite values,
    which are carried by exact rationals.  Comparison, [Math.max],
    [Math.min] and the arithmetic operators follow IEEE 754 on the
    non-finite values (a comparison with [NaN] is false, [Infinity - Infinity]
    is [NaN], ...).  On finite values arithmetic is exact: rounding, overflow
    and the sign of zero are outside the model. *)

From Stdlib Require Import String ZArith QArith Qabs Qround Qpower Lqa Lia List
  Bool.
Import ListNotations.

(** ** JavaScript numbers *)

Module JsNum.

Inductive num : Type :=
| NaN
| NegInf
| PosInf
| Fin (q : Q).

Definition of_Z (z : Z) : num := Fin (inject_Z z).
Definition of_nat (n : nat) : num := of_Z (Z.of_nat n).

Definition is_finite (a : num) : bool :=
  match a with Fin _ => true | _ => false end.

(** [isNaN] *)
Definition isNaN (a : num) : bool :=
  match a with NaN => true | _ => false end.

Definition Qltb (a b : Q) : bool :=
  match a ?= b with Lt => true | _ => false end.

Definition Qleb (a b : Q) : bool :=
  match a ?= b with Gt => false | _ => true end.

Definition Qmaxb (a b : Q) : Q := if Qltb a b then b else a.
Definition Qminb (a b : Q) : Q := if Qltb b a then b else a.

(** unary [-] *)
Definition neg (a : num) : num :=
  match a with
  | NaN => NaN
  | NegInf => PosInf
  | PosInf => NegInf
  | Fin q => Fin (- q)
  end.

(** [a + b] *)
Definition add (a b : num) : num :=
  match a, b with
  | NaN, _ | _, NaN => NaN
  | PosInf, NegInf | NegInf, PosInf => NaN
  | PosInf, _ | _, PosInf => PosInf
  | NegInf, _ | _, NegInf => NegInf
  | Fin x, Fin y => Fin (x + y)
  end.

(** [a - b] *)
Definition sub (a b : num) : num :=
  match a, b with
  | NaN, _ | _, NaN => NaN
  | PosInf, PosInf | NegInf, NegInf => NaN
  | PosInf, _ | _, NegInf => PosInf
  | NegInf, _ | _, PosInf => NegInf
  | Fin x, Fin y => Fin (x - y)
  end.

(** The infinity that carries the sign of the comparison of a finite
    factor with zero; a zero factor gives [NaN]. *)
Definition signed_inf (c : comparison) : num :=
  match c with Eq => NaN | Lt => NegInf | Gt => PosInf end.

(** [a * b] *)
Definition mul (a b : num) : num :=
  match a, b with
  | NaN, _ | _, NaN => NaN
  | PosInf, PosInf | NegInf, NegInf => PosInf
  | PosInf, NegInf | NegInf, PosInf => NegInf
  | PosInf, Fin y => signed_inf (y ?= 0)
  | NegInf, Fin y => signed_inf (0 ?= y)
  | Fin x, PosInf => signed_inf (x ?= 0)
  | Fin x, NegInf => signed_inf (0 ?= x)
  | Fin x, Fin y => Fin (x * y)
  end.

(** [a / b]; a zero divisor is taken to be [+0]. *)
Definition div (a b : num) : num :=
  match a, b with
  | NaN, _ | _, NaN => NaN
  | (PosInf | NegInf), (PosInf | NegInf) => NaN
  | PosInf, Fin y => match y ?= 0 with Lt => NegInf | _ => PosInf end
  | NegInf, Fin y => match y ?= 0 with Lt => PosInf | _ => NegInf end
  | Fin _, (PosInf | NegInf) => Fin 0
  | Fin x, Fin y =>
      match y ?= 0 with
      | Eq => signed_inf (x ?= 0)
      | _ => Fin (x / y)
      end
  end.

(** [a % b]: the remainder has the sign of the dividend. *)
Definition Qtrunc (q : Q) : Z := Z.quot (Qnum q) (Zpos (Qden q)).

Definition rem (a b : num) : num :=
  match a, b with
  | NaN, _ | _, NaN => NaN
  | (PosInf | NegInf), _ => NaN
  | Fin x, (PosInf | NegInf) => Fin x
  | Fin x, Fin y =>
      match y ?= 0 with
      | Eq => NaN
      | _ => Fin (x - y * inject_Z (Qtrunc (x / y)))
      end
  end.

(** [a < b] *)
Definition lt (a b : num) : bool :=
  match a, b with
  | NaN, _ | _, NaN => false
  | _, NegInf => false
  | NegInf, _ => true
  | PosInf, _ => false
  | _, PosInf => true
  | Fin x, Fin y => Qltb x y
  end.

(** [a <= b] *)
Definition le (a b : num) : bool :=
  match a, b with
  | NaN, _ | _, NaN => false
  | NegInf, _ => true
  | _, PosInf => true
  | _, NegInf => false
  | PosInf, _ => false
  | Fin x, Fin y => Qleb x y
  end.

(** [a > b] and [a >= b] *)
Definition gt (a b : num) : bool := lt b a.
Definition ge (a b : num) : bool := le b a.

(** [Math.max(a, b)] and [Math.min(a, b)]: [NaN] as soon as one argument is. *)
Definition max (a b : num) : num :=
  match a, b with
  | NaN, _ | _, NaN => NaN
  | PosInf, _ | _, PosInf => PosInf
  | NegInf, x | x, NegInf => x
  | Fin x, Fin y => Fin (Qmaxb x y)
  end.

Definition min (a b : num) : num :=
  match a, b with
  | NaN, _ | _, NaN => NaN
  | NegInf, _ | _, NegInf => NegInf
  | PosInf, x | x, PosInf => x
  | Fin x, Fin y => Fin (Qminb x y)
  end.

(** [Math.abs] and [Math.floor] *)
Definition abs (a : num) : num :=
  match a with
  | NaN => NaN
  | NegInf | PosInf => PosInf
  | Fin q => Fin (Qabs q)
  end.

Definition floor (a : num) : num :=
  match a with
  | Fin q => Fin (inject_Z (Qfloor q))
  | other => other
  end.

(** [Math.PI]: the rational value of the binary64 constant. *)
Definition Math_PI : num := Fin (884279719003555 # 281474976710656).

(** [between lo x hi]: [lo <= x && x <= hi] as the code would test it; it
    fails as soon as one of the three is [NaN]. *)
Definition between (lo x hi : num) : bool := le lo x && le x hi.

(** Two model values denote the same number. *)
Definition num_eq (a b : num) : Prop :=
  match a, b with
  | NaN, NaN | NegInf, NegInf | PosInf, PosInf => True
  | Fin x, Fin y => x == y
  | _, _ => False
  end.

End JsNum.

Import JsNum.

Declare Scope num_scope.
Delimit Scope num_scope with num.
Bind Scope num_scope with num.
Infix "+" := add : num_scope.
Infix "-" := sub : num_scope.
Infix "*" := mul : num_scope.
Infix "/" := div : num_scope.
Infix "<?" := lt : num_scope.
Infix "<=?" := le : num_scope.
Infix ">?" := gt : num_scope.
Infix ">=?" := ge : num_scope.
Notation "- x" := (neg x) : num_scope.

Local Open Scope num_scope.

(** ** JavaScript arrays *)

(** The position a relative index of [slice] stands for in an array of
    length [len]: a negative index counts from the end, and the result is
    kept within [[0, len]]. *)
Definition slice_index (len i : Z) : Z :=
  if (i <? 0)%Z then Z.max (len + i) 0 else Z.min i len.

(** [array.slice(b, e)], and [array.slice(b)] when [e] is [None], for
    integer indices. *)
Definition slice {A : Type} (l : list A) (b : Z) (e : option Z) : list A :=
  let len := Z.of_nat (length l) in
  let k := slice_index len b in
  let final := match e with None => len | Some e => slice_index len e end in
  firstn (Z.to_nat (final - k)) (skipn (Z.to_nat k) l).

(** [Math.max(...array)] and [Math.min(...array)] *)
Definition max_of (l : list num) : num := fold_left max l NegInf.
Definition min_of (l : list num) : num := fold_left min l PosInf.

(** ** [pid-controller-enhanced.js] *)

Module Enhanced.

(** The [components] object handed to [storeHistory]. *)
Record Components : Type := mkComponents {
  p : num;
  i : num;
  d : num
}.

(** An entry of [outputHistory]; [components = None] is the empty object
    that [components || {}] stores when no breakdown is given. *)
Record OutputEntry : Type := mkOutputEntry {
  output : num;
  timestamp : Z;
  components : option Components
}.

(** The fields of a [PIDController] instance, in the order of the
    constructor. *)
Record PIDController : Type := mkPID {
  kp : num;
  ki : num;
  kd : num;
  setpoint : num;
  previousError : num;
  integral : num;
  lastTime : Z;
  lastOutput : num;
  errorHistory : list num;
  outputHistory : list OutputEntry;
  maxHistoryLength : Z;
  integralMax : num;
  integralMin : num;
  outputMax : num;
  outputMin : num;
  alpha : num;
  filteredDerivative : num;
  maxRate : num;
  lastUpdateTime : Z
}.

(** [constructor(kp = 2.5, ki = 0.1, kd = 0.8)]; the two clock readings
    are the two calls of [Date.now()]. *)
Definition constructor (now1 now2 : Z) (kp ki kd : option num) : PIDController :=
  {| kp := match kp with Some v => v | None => Fin 2.5 end;
     ki := match ki with Some v => v | None => Fin 0.1 end;
     kd := match kd with Some v => v | None => Fin 0.8 end;
     setpoint := Fin 0;
     previousError := Fin 0;
     integral := Fin 0;
     lastTime := now1;
     lastOutput := Fin 0;
     errorHistory := [];
     outputHistory := [];
     maxHistoryLength := 1000;
     integralMax := Fin 50;
     integralMin := - Fin 50;
     outputMax := Fin 100;
     outputMin := - Fin 100;
     alpha := Fin 0.15;
     filteredDerivative := Fin 0;
     maxRate := Fin 20;
     lastUpdateTime := now2 |}.

(** Assignments [this.f = v], one per field the methods write. *)
Definition set_kp (v : num) (c : PIDController) : PIDController :=
  mkPID v (ki c) (kd c) (setpoint c) (previousError c) (integral c)
    (lastTime c) (lastOutput c) (errorHistory c) (outputHistory c)
    (maxHistoryLength c) (integralMax c) (integralMin c) (outputMax c)
    (outputMin c) (alpha c) (filteredDerivative c) (maxRate c)
    (lastUpdateTime c).

Definition set_ki (v : num) (c : PIDController) : PIDController :=
  mkPID (kp c) v (kd c) (setpoint c) (previousError c) (integral c)
    (lastTime c) (lastOutput c) (errorHistory c) (outputHistory c)
    (maxHistoryLength c) (integralMax c) (integralMin c) (outputMax c)
    (outputMin c) (alpha c) (filteredDerivative c) (maxRate c)
    (lastUpdateTime c).

Definition set_kd (v : num) (c : PIDController) : PIDController :=
  mkPID (kp c) (ki c) v (setpoint c) (previousError c) (integral c)
    (lastTime c) (lastOutput c) (errorHistory c) (outputHistory c)
    (maxHistoryLength c) (integralMax c) (integralMin c) (outputMax c)
    (outputMin c) (alpha c) (filteredDerivative c) (maxRate c)
    (lastUpdateTime c).

Definition set_setpoint (v : num) (c : PIDController) : PIDController :=
  mkPID (kp c) (ki c) (kd c) v (previousError c) (integral c)
    (lastTime c) (lastOutput c) (errorHistory c) (outputHistory c)
    (maxHistoryLength c) (integralMax c) (integralMin c) (outputMax c)
    (outputMin c) (alpha c) (filteredDerivative c) (maxRate c)
    (lastUpdateTime c).

Definition set_previousError (v : num) (c : PIDController) : PIDController :=
  mkPID (kp c) (ki c) (kd c) (setpoint c) v (integral c)
    (lastTime c) (lastOutput c) (errorHistory c) (outputHistory c)
    (maxHistoryLength c) (integralMax c) (integralMin c) (outputMax c)
    (outputMin c) (alpha c) (filteredDerivative c) (maxRate c)
    (lastUpdateTime c).

Definition set_integral (v : num) (c : PIDController) : PIDController :=
  mkPID (kp c) (ki c) (kd c) (setpoint c) (previousError c) v
    (lastTime c) (lastOutput c) (errorHistory c) (outputHistory c)
    (maxHistoryLength c) (integralMax c) (integralMin c) (outputMax c)
    (outputMin c) (alpha c) (filteredDerivative c) (maxRate c)
    (lastUpdateTime c).

Definition set_lastTime (v : Z) (c : PIDController) : PIDController :=
  mkPID (kp c) (ki c) (kd c) (setpoint c) (previousError c) (integral c)
    v (lastOutput c) (errorHistory c) (outputHistory c)
    (maxHistoryLength c) (integralMax c) (integralMin c) (outputMax c)
    (outputMin c) (alpha c) (filteredDerivative c) (maxRate c)
    (lastUpdateTime c).

Definition set_lastOutput (v : num) (c : PIDController) : PIDController :=
  mkPID (kp c) (ki c) (kd c) (setpoint c) (previousError c) (integral c)
    (lastTime c) v (errorHistory c) (outputHistory c)
    (maxHistoryLength c) (integralMax c) (integralMin c) (outputMax c)
    (outputMin c) (alpha c) (filteredDerivative c) (maxRate c)
    (lastUpdateTime c).

Definition set_errorHistory (v : list num) (c : PIDController) : PIDController :=
  mkPID (kp c) (ki c) (kd c) (setpoint c) (previousError c) (integral c)
    (lastTime c) (lastOutput c) v (outputHistory c)
    (maxHistoryLength c) (integralMax c) (integralMin c) (outputMax c)
    (outputMin c) (alpha c) (filteredDerivative c) (maxRate c)
    (lastUpdateTime c).

Definition set_outputHistory (v : list OutputEntry) (c : PIDController) : PIDController :=
  mkPID (kp c) (ki c) (kd c) (setpoint c) (previousError c) (integral c)
    (lastTime c) (lastOutput c) (errorHistory c) v
    (maxHistoryLength c) (integralMax c) (integralMin c) (outputMax c)
    (outputMin c) (alpha c) (filteredDerivative c) (maxRate c)
    (lastUpdateTime c).

Definition set_filteredDerivative (v : num) (c : PIDController) : PIDController :=
  mkPID (kp c) (ki c) (kd c) (setpoint c) (previousError c) (integral c)
    (lastTime c) (lastOutput c) (errorHistory c) (outputHistory c)
    (maxHistoryLength c) (integralMax c) (integralMin c) (outputMax c)
    (outputMin c) (alpha c) v (maxRate c)
    (lastUpdateTime c).

(** [setParameters(kp, ki, kd)] *)
Definition setParameters (c : PIDController) (kp ki kd : num) : PIDController :=
  let c := set_kp kp c in
  let c := set_ki ki c in
  set_kd kd c.

(** [setGains(kp, ki, kd)], installed on the prototype when the script runs
    in a browser; the log line is not modelled. *)
Definition setGains (c : PIDController) (kp ki kd : num) : PIDController :=
  let c := set_kp kp c in
  let c := set_ki ki c in
  set_kd kd c.

(** [reset()] *)
Definition reset (c : PIDController) (now : Z) : PIDController :=
  let c := set_previousError (Fin 0) c in
  let c := set_integral (Fin 0) c in
  let c := set_filteredDerivative (Fin 0) c in
  let c := set_lastTime now c in
  let c := set_errorHistory [] c in
  let c := set_outputHistory [] c in
  set_lastOutput (Fin 0) c.

(** [storeHistory(error, output, components = {})]; [stamp] is the
    reading of [Date.now()].  [push] appends at the end, [shift] drops the
    head of the array. *)
Definition storeHistory (c : PIDController) (stamp : Z) (error output : num)
    (components : option Components) : PIDController :=
  let c := set_errorHistory (errorHistory c ++ [error]) c in
  let c := set_outputHistory
             (outputHistory c ++ [mkOutputEntry output stamp components]) c in
  if (Z.of_nat (length (errorHistory c)) >? maxHistoryLength c)%Z then
    let c := set_errorHistory (tl (errorHistory c)) c in
    set_outputHistory (tl (outputHistory c)) c
  else c.

(** The timestep [calculate] works with, after lines 64 to 74: the elapsed
    clock time when the argument is [null], and [0.001] whenever the
    test [deltaTime <= 0] succeeds. *)
Definition effectiveDeltaTime (c : PIDController) (currentTime : Z)
    (deltaTime : option num) : num :=
  let deltaTime :=
    match deltaTime with
    | None => of_Z (currentTime - lastTime c) / Fin 1000
    | Some dt => dt
    end in
  if deltaTime <=? Fin 0 then Fin 0.001 else deltaTime.

(** [calculate(setpoint, currentValue, deltaTime = null)].  [currentTime]
    is the reading of [Date.now()] at the top of the method and [stamp] the
    one taken by [storeHistory].  The result is the updated controller and
    the returned output. *)
Definition calculate (c : PIDController) (currentTime stamp : Z)
    (setpoint_ currentValue : num) (deltaTime : option num)
    : PIDController * num :=
  let deltaTime := effectiveDeltaTime c currentTime deltaTime in
  let c := set_setpoint setpoint_ c in
  let error := setpoint c - currentValue in
  let proportional := kp c * error in
  let c := set_integral (integral c + error * deltaTime) c in
  let c := set_integral (max (integralMin c) (min (integralMax c) (integral c))) c in
  let integral_ := ki c * integral c in
  let '(c, derivative) :=
    if deltaTime >? Fin 0 then
      let rawDerivative := (error - previousError c) / deltaTime in
      let c := set_filteredDerivative
                 (alpha c * rawDerivative
                  + (Fin 1 - alpha c) * filteredDerivative c) c in
      (c, kd c * filteredDerivative c)
    else (c, Fin 0) in
  let output_ := proportional + integral_ + derivative in
  let maxChange := maxRate c * deltaTime in
  let output_ := max (lastOutput c - maxChange)
                     (min (lastOutput c + maxChange) output_) in
  let output_ := max (outputMin c) (min (outputMax c) output_) in
  let c := set_previousError error c in
  let c := set_lastTime currentTime c in
  let c := set_lastOutput output_ c in
  let c := storeHistory c stamp error output_
             (Some (mkComponents proportional integral_ derivative)) in
  (c, output_).

(** [update(currentValue)], the alias kept for backward compatibility. *)
Definition update (c : PIDController) (currentTime stamp : Z)
    (currentValue : num) : PIDController * num :=
  calculate c currentTime stamp (setpoint c) currentValue None.

(** *** [autoTune] *)

(** An element of the local array [peaks]. *)
Record Peak : Type := mkPeak {
  peak_time : num;
  peak_value : num;
  peak_period : num
}.

(** The object [autoTune] returns; [newParams] holds [kp], [ki], [kd]. *)
Record TuneResult : Type := mkTuneResult {
  success : bool;
  cycles : num;
  period : num;
  amplitude : num;
  newParams : num * num * num
}.

(** The loop [for (let i = 0; i < 1000; i++)] of [autoTune]: [remaining]
    counts the iterations still allowed, [i] is the loop index, and
    [clock i] gives the two readings of [Date.now()] made by the call of
    [calculate] in iteration [i].  The [break] returns at once. *)
Fixpoint autoTune_loop (clock : Z -> Z * Z) (processVariable setpoint_ cycles_ : num)
    (remaining : nat) (i : Z) (c : PIDController) (peaks : list Peak)
    (lastOutput_ : num) (lastCrossing : Z) : PIDController * list Peak :=
  match remaining with
  | O => (c, peaks)
  | S remaining' =>
      let '(c, output_) :=
        calculate c (fst (clock i)) (snd (clock i)) setpoint_ processVariable
          (Some (Fin 0.02)) in
      let '(peaks, lastCrossing) :=
        if lastOutput_ * output_ <? Fin 0 then
          let period_ := of_Z (i - lastCrossing) * Fin 0.02 in
          let peaks :=
            if period_ >? Fin 0.1 then
              peaks ++ [mkPeak (of_Z i * Fin 0.02) output_ period_]
            else peaks in
          (peaks, i)
        else (peaks, lastCrossing) in
      let lastOutput_ := output_ in
      if of_nat (length peaks) >=? cycles_ * Fin 2 then (c, peaks)
      else autoTune_loop clock processVariable setpoint_ cycles_
             remaining' (i + 1)%Z c peaks lastOutput_ lastCrossing
  end.

(** The loop [for (let i = 1; i < peaks.length; i++)]: [prev] is
    [peaks[i-1]] and the list holds [peaks[i]] onwards. *)
Fixpoint peak_gaps (prev : Peak) (rest : list Peak) (periods : list num)
    (sumAmplitude : num) : list num * num :=
  match rest with
  | [] => (periods, sumAmplitude)
  | pk :: rest' =>
      peak_gaps pk rest' (periods ++ [peak_time pk - peak_time prev])
        (sumAmplitude + abs (peak_value pk))
  end.

(** What an out-of-range index would read; no guarded access reaches it. *)
Definition no_peak : Peak := mkPeak NaN NaN NaN.

(** [autoTune(processVariable, setpoint, cycles = 5)] *)
Definition autoTune (c : PIDController) (clock : Z -> Z * Z)
    (processVariable setpoint_ : num) (cycles_ : option num)
    : PIDController * TuneResult :=
  let cycles_ := match cycles_ with Some v => v | None => Fin 5 end in
  let kp_ := kp c in
  let currentIntegral := integral c in
  let currentDerivative := filteredDerivative c in
  let currentError := previousError c in
  let '(c, peaks) :=
    autoTune_loop clock processVariable setpoint_ cycles_ 1000 0 c []
      (Fin 0) 0 in
  let c :=
    if (4 <=? length peaks)%nat then
      let '(periods, sumAmplitude) :=
        peak_gaps (hd no_peak peaks) (tl peaks) [] (Fin 0) in
      let avgPeriod :=
        fold_left add periods (Fin 0) / of_nat (length periods) in
      let avgAmplitude := sumAmplitude / (of_nat (length peaks) - Fin 1) in
      let ku := Fin 4 * kp_ / (Math_PI * avgAmplitude) in
      let pu := avgPeriod in
      let c := set_kp (Fin 0.6 * ku) c in
      let c := set_ki (Fin 1.2 * ku / pu) c in
      set_kd (Fin 0.075 * ku * pu) c
    else c in
  let c := set_integral currentIntegral c in
  let c := set_filteredDerivative currentDerivative c in
  let c := set_previousError currentError c in
  (c,
   {| success := (4 <=? length peaks)%nat;
      cycles := floor (of_nat (length peaks) / Fin 2);
      period :=
        if (2 <=? length peaks)%nat then
          (peak_time (last peaks no_peak) - peak_time (hd no_peak peaks))
          / (of_nat (length peaks) - Fin 1)
        else Fin 0;
      amplitude :=
        if (0 <? length peaks)%nat then
          fold_left (fun sum peak => sum + abs (peak_value peak)) peaks (Fin 0)
          / of_nat (length peaks)
        else Fin 0;
      newParams := (kp c, ki c, kd c) |}).

(** *** Analytics *)

(** [getStabilityStatus()] *)
Definition getStabilityStatus (c : PIDController) : string :=
  if (Z.of_nat (length (errorHistory c)) <? 10)%Z then "Initializing"%string
  else
    let recentErrors := slice (errorHistory c) (-10) None in
    let avgError :=
      fold_left (fun a b => a + abs b) recentErrors (Fin 0)
      / of_nat (length recentErrors) in
    if avgError <? Fin 0.1 then "Very Stable"%string
    else if avgError <? Fin 0.3 then "Stable"%string
    else if avgError <? Fin 1.0 then "Settling"%string
    else if avgError <? Fin 3.0 then "Oscillating"%string
    else "Unstable"%string.

(** The object [getPerformanceMetrics()] returns. *)
Record PerformanceMetrics : Type := mkPerformanceMetrics {
  m_stability : string;
  m_rmse : num;
  m_currentError : num;
  m_avgError : num;
  m_output : num;
  m_integral : num;
  m_derivative : num
}.

Section WithSqrt.

(** [Math.sqrt], left to the implementation like [Math.sin]. *)
Variable Math_sqrt : num -> num.

(** [getRMSError(windowSize = 50)], for an integer window. *)
Definition getRMSError (c : PIDController) (windowSize : option Z) : num :=
  let windowSize := match windowSize with Some w => w | None => 50%Z end in
  if (Z.of_nat (length (errorHistory c)) <? windowSize)%Z then Fin 0
  else
    let recent := slice (errorHistory c) (- windowSize) None in
    let sumSq := fold_left (fun sum err => sum + err * err) recent (Fin 0) in
    Math_sqrt (sumSq / of_nat (length recent)).

(** [getPerformanceMetrics()] *)
Definition getPerformanceMetrics (c : PIDController) : PerformanceMetrics :=
  {| m_stability := getStabilityStatus c;
     m_rmse := getRMSError c None;
     m_currentError :=
       if (0 <? length (errorHistory c))%nat then last (errorHistory c) (Fin 0)
       else Fin 0;
     m_avgError :=
       if (0 <? length (errorHistory c))%nat then
         fold_left (fun a b => a + abs b) (errorHistory c) (Fin 0)
         / of_nat (length (errorHistory c))
       else Fin 0;
     m_output := lastOutput c;
     m_integral := integral c;
     m_derivative := filteredDerivative c |}.

End WithSqrt.

(** [getErrorTrend(windowSize = 20)], for an integer window: the slope of
    the regression line of the recent errors against their index. *)
Definition getErrorTrend (c : PIDController) (windowSize : option Z) : num :=
  let windowSize := match windowSize with Some w => w | None => 20%Z end in
  if (Z.of_nat (length (errorHistory c)) <? windowSize)%Z then Fin 0
  else
    let recent := slice (errorHistory c) (- windowSize) None in
    let x := map of_nat (seq 0 (length recent)) in
    let y := recent in
    let n := of_nat (length recent) in
    let xSum := fold_left (fun a b => a + b) x (Fin 0) in
    let ySum := fold_left (fun a b => a + b) y (Fin 0) in
    let xySum :=
      fold_left (fun a xy => a + fst xy * snd xy) (combine x y) (Fin 0) in
    let xSqSum := fold_left (fun a b => a + b * b) x (Fin 0) in
    let slope := (n * xySum - xSum * ySum) / (n * xSqSum - xSum * xSum) in
    slope.

End Enhanced.

(** ** [pid-controller.js] *)

Module Basic.

Record PIDController : Type := mkPID {
  kp : num;
  ki : num;
  kd : num;
  setpoint : num;
  previousError : num;
  integral : num;
  lastTime : Z;
  errorHistory : list num;
  outputHistory : list num;
  maxHistoryLength : Z;
  integralMax : num;
  integralMin : num;
  outputMax : num;
  outputMin : num
}.

(** [constructor(kp = 1.0, ki = 0.1, kd = 0.05)] *)
Definition constructor (now : Z) (kp ki kd : option num) : PIDController :=
  {| kp := match kp with Some v => v | None => Fin 1.0 end;
     ki := match ki with Some v => v | None => Fin 0.1 end;
     kd := match kd with Some v => v | None => Fin 0.05 end;
     setpoint := Fin 0;
     previousError := Fin 0;
     integral := Fin 0;
     lastTime := now;
     errorHistory := [];
     outputHistory := [];
     maxHistoryLength := 1000;
     integralMax := Fin 100;
     integralMin := - Fin 100;
     outputMax := Fin 50;
     outputMin := - Fin 50 |}.

Definition set_gains (kp ki kd : num) (c : PIDController) : PIDController :=
  mkPID kp ki kd (setpoint c) (previousError c) (integral c) (lastTime c)
    (errorHistory c) (outputHistory c) (maxHistoryLength c) (integralMax c)
    (integralMin c) (outputMax c) (outputMin c).

Definition set_setpoint (v : num) (c : PIDController) : PIDController :=
  mkPID (kp c) (ki c) (kd c) v (previousError c) (integral c) (lastTime c)
    (errorHistory c) (outputHistory c) (maxHistoryLength c) (integralMax c)
    (integralMin c) (outputMax c) (outputMin c).

Definition set_previousError (v : num) (c : PIDController) : PIDController :=
  mkPID (kp c) (ki c) (kd c) (setpoint c) v (integral c) (lastTime c)
    (errorHistory c) (outputHistory c) (maxHistoryLength c) (integralMax c)
    (integralMin c) (outputMax c) (outputMin c).

Definition set_integral (v : num) (c : PIDController) : PIDController :=
  mkPID (kp c) (ki c) (kd c) (setpoint c) (previousError c) v (lastTime c)
    (errorHistory c) (outputHistory c) (maxHistoryLength c) (integralMax c)
    (integralMin c) (outputMax c) (outputMin c).

Definition set_lastTime (v : Z) (c : PIDController) : PIDController :=
  mkPID (kp c) (ki c) (kd c) (setpoint c) (previousError c) (integral c) v
    (errorHistory c) (outputHistory c) (maxHistoryLength c) (integralMax c)
    (integralMin c) (outputMax c) (outputMin c).

Definition set_errorHistory (v : list num) (c : PIDController) : PIDController :=
  mkPID (kp c) (ki c) (kd c) (setpoint c) (previousError c) (integral c)
    (lastTime c) v (outputHistory c) (maxHistoryLength c) (integralMax c)
    (integralMin c) (outputMax c) (outputMin c).

Definition set_outputHistory (v : list num) (c : PIDController) : PIDController :=
  mkPID (kp c) (ki c) (kd c) (setpoint c) (previousError c) (integral c)
    (lastTime c) (errorHistory c) v (maxHistoryLength c) (integralMax c)
    (integralMin c) (outputMax c) (outputMin c).

(** [setGains(kp, ki, kd)] *)
Definition setGains (c : PIDController) (kp ki kd : num) : PIDController :=
  set_gains kp ki kd c.

(** [setSetpoint(setpoint)] *)
Definition setSetpoint (c : PIDController) (setpoint : num) : PIDController :=
  set_setpoint setpoint c.

(** [reset()] *)
Definition reset (c : PIDController) (now : Z) : PIDController :=
  let c := set_previousError (Fin 0) c in
  let c := set_integral (Fin 0) c in
  let c := set_lastTime now c in
  let c := set_errorHistory [] c in
  set_outputHistory [] c.

(** What [update] returns: the number [0] of its early [return 0], or the
    object with the output and its breakdown. *)
Record UpdateObject : Type := mkUpdateObject {
  output : num;
  error : num;
  proportional : num;
  integral_term : num;
  derivative : num
}.

Inductive UpdateResult : Type :=
| RNumber (n : num)
| RObject (o : UpdateObject).

(** [update(currentValue)] *)
Definition update (c : PIDController) (currentTime : Z) (currentValue : num)
    : PIDController * UpdateResult :=
  let deltaTime := of_Z (currentTime - lastTime c) / Fin 1000 in
  if deltaTime <=? Fin 0 then (c, RNumber (Fin 0))
  else
    let error := setpoint c - currentValue in
    let proportional := kp c * error in
    let c := set_integral (integral c + error * deltaTime) c in
    let c := set_integral
               (max (integralMin c) (min (integralMax c) (integral c))) c in
    let integral_ := ki c * integral c in
    let derivative := kd c * (error - previousError c) / deltaTime in
    let output_ := proportional + integral_ + derivative in
    let output_ := max (outputMin c) (min (outputMax c) output_) in
    let c := set_previousError error c in
    let c := set_lastTime currentTime c in
    let c := set_errorHistory (errorHistory c ++ [error]) c in
    let c := set_outputHistory (outputHistory c ++ [output_]) c in
    let c :=
      if (Z.of_nat (length (errorHistory c)) >? maxHistoryLength c)%Z then
        let c := set_errorHistory (tl (errorHistory c)) c in
        set_outputHistory (tl (outputHistory c)) c
      else c in
    (c, RObject (mkUpdateObject output_ error proportional integral_ derivative)).

(** *** Analytics *)

(** [getStabilityStatus(error)] *)
Definition getStabilityStatus (error : num) : string :=
  let absError := abs error in
  if absError <? Fin 0.5 then "Stable"%string
  else if absError <? Fin 2.0 then "Settling"%string
  else if absError <? Fin 5.0 then "Oscillating"%string
  else "Unstable"%string.

(** [getErrorTrend(samples = 10)], for an integer number of samples. *)
Definition getErrorTrend (c : PIDController) (samples : option Z) : num :=
  let samples := match samples with Some n => n | None => 10%Z end in
  if (Z.of_nat (length (errorHistory c)) <? samples)%Z then Fin 0
  else
    let recent := slice (errorHistory c) (- samples) None in
    let older := slice (errorHistory c) (- samples * 2) (Some (- samples)%Z) in
    if (length older =? 0)%nat then Fin 0
    else
      let recentAvg :=
        fold_left (fun a b => a + b) recent (Fin 0) / of_nat (length recent) in
      let olderAvg :=
        fold_left (fun a b => a + b) older (Fin 0) / of_nat (length older) in
      recentAvg - olderAvg.

(** The loop of [getSettlingTime], which runs [i] from the last index down
    to [0]: [errors] holds [errorHistory[i]], [errorHistory[i-1]], ... and
    the result is the value of [settlingIndex] after the loop. *)
Fixpoint settling_scan (threshold : num) (errors : list num) (i : Z) : Z :=
  match errors with
  | [] => (-1)%Z
  | e :: errors' =>
      if abs e >? threshold then i
      else settling_scan threshold errors' (i - 1)%Z
  end.

(** [getSettlingTime()] *)
Definition getSettlingTime (c : PIDController) : num :=
  let threshold := Fin 0.02 * abs (setpoint c) in
  let settlingIndex :=
    settling_scan threshold (rev (errorHistory c))
      (Z.of_nat (length (errorHistory c)) - 1)%Z in
  if (settlingIndex =? -1)%Z then Fin 0
  else of_Z (Z.of_nat (length (errorHistory c)) - settlingIndex) * Fin 0.016.

(** [x || 1] on a number: [1] when [x] is [0] or [NaN]. *)
Definition or_one (x : num) : num :=
  match x with
  | NaN => Fin 1
  | Fin q => if Qeq_bool q 0 then Fin 1 else x
  | _ => x
  end.

(** [getOvershoot()] *)
Definition getOvershoot (c : PIDController) : num :=
  if (Z.of_nat (length (errorHistory c)) <? 10)%Z then Fin 0
  else
    let maxError := max_of (map abs (errorHistory c)) in
    let setpointRange := or_one (abs (setpoint c)) in
    maxError / setpointRange * Fin 100.

(** The object [getPerformanceMetrics()] returns. *)
Record PerformanceMetrics : Type := mkPerformanceMetrics {
  m_settlingTime : num;
  m_overshoot : num;
  m_steadyStateError : num;
  m_errorTrend : num
}.

(** [getPerformanceMetrics()] *)
Definition getPerformanceMetrics (c : PIDController) : PerformanceMetrics :=
  {| m_settlingTime := getSettlingTime c;
     m_overshoot := getOvershoot c;
     m_steadyStateError :=
       if (0 <? length (errorHistory c))%nat then
         abs (last (errorHistory c) (Fin 0))
       else Fin 0;
     m_errorTrend := getErrorTrend c None |}.

End Basic.

(** ** The first [BalancingRobot] class

    The canvas, its drawing context and the sizes used only by the drawing
    methods are left out; [baseX] and [baseY], which [update] reads for the
    trail, are kept. *)

Module Robot0.

(** An element of [trail]. *)
Record TrailPoint : Type := mkTrailPoint {
  x : num;
  y : num;
  time : Z
}.

Record BalancingRobot : Type := mkRobot {
  mass : num;
  length : num;
  gravity : num;
  friction : num;
  angle : num;
  angularVelocity : num;
  angularAcceleration : num;
  position : num;
  velocity : num;
  baseX : num;
  baseY : num;
  torque : num;
  disturbanceForce : num;
  disturbanceDecay : num;
  lastTime : Z;
  groundOffset : num;
  groundSpeed : num;
  trail : list TrailPoint;
  maxTrailLength : Z
}.

(** Assignments [this.f = v]. *)
Definition set_angle (v : num) (r : BalancingRobot) : BalancingRobot :=
  mkRobot (mass r) (length r) (gravity r) (friction r) v (angularVelocity r)
    (angularAcceleration r) (position r) (velocity r) (baseX r) (baseY r)
    (torque r) (disturbanceForce r) (disturbanceDecay r) (lastTime r)
    (groundOffset r) (groundSpeed r) (trail r) (maxTrailLength r).

Definition set_angularVelocity (v : num) (r : BalancingRobot) : BalancingRobot :=
  mkRobot (mass r) (length r) (gravity r) (friction r) (angle r) v
    (angularAcceleration r) (position r) (velocity r) (baseX r) (baseY r)
    (torque r) (disturbanceForce r) (disturbanceDecay r) (lastTime r)
    (groundOffset r) (groundSpeed r) (trail r) (maxTrailLength r).

Definition set_angularAcceleration (v : num) (r : BalancingRobot) : BalancingRobot :=
  mkRobot (mass r) (length r) (gravity r) (friction r) (angle r)
    (angularVelocity r) v (position r) (velocity r) (baseX r) (baseY r)
    (torque r) (disturbanceForce r) (disturbanceDecay r) (lastTime r)
    (groundOffset r) (groundSpeed r) (trail r) (maxTrailLength r).

Definition set_position (v : num) (r : BalancingRobot) : BalancingRobot :=
  mkRobot (mass r) (length r) (gravity r) (friction r) (angle r)
    (angularVelocity r) (angularAcceleration r) v (velocity r) (baseX r)
    (baseY r) (torque r) (disturbanceForce r) (disturbanceDecay r) (lastTime
    r) (groundOffset r) (groundSpeed r) (trail r) (maxTrailLength r).

Definition set_velocity (v : num) (r : BalancingRobot) : BalancingRobot :=
  mkRobot (mass r) (length r) (gravity r) (friction r) (angle r)
    (angularVelocity r) (angularAcceleration r) (position r) v (baseX r)
    (baseY r) (torque r) (disturbanceForce r) (disturbanceDecay r) (lastTime
    r) (groundOffset r) (groundSpeed r) (trail r) (maxTrailLength r).

Definition set_torque (v : num) (r : BalancingRobot) : BalancingRobot :=
  mkRobot (mass r) (length r) (gravity r) (friction r) (angle r)
    (angularVelocity r) (angularAcceleration r) (position r) (velocity r)
    (baseX r) (baseY r) v (disturbanceForce r) (disturbanceDecay r)
    (lastTime r) (groundOffset r) (groundSpeed r) (trail r) (maxTrailLength
    r).

Definition set_disturbanceForce (v : num) (r : BalancingRobot) : BalancingRobot :=
  mkRobot (mass r) (length r) (gravity r) (friction r) (angle r)
    (angularVelocity r) (angularAcceleration r) (position r) (velocity r)
    (baseX r) (baseY r) (torque r) v (disturbanceDecay r) (lastTime r)
    (groundOffset r) (groundSpeed r) (trail r) (maxTrailLength r).

Definition set_lastTime (v : Z) (r : BalancingRobot) : BalancingRobot :=
  mkRobot (mass r) (length r) (gravity r) (friction r) (angle r)
    (angularVelocity r) (angularAcceleration r) (position r) (velocity r)
    (baseX r) (baseY r) (torque r) (disturbanceForce r) (disturbanceDecay r)
    v (groundOffset r) (groundSpeed r) (trail r) (maxTrailLength r).

Definition set_groundOffset (v : num) (r : BalancingRobot) : BalancingRobot :=
  mkRobot (mass r) (length r) (gravity r) (friction r) (angle r)
    (angularVelocity r) (angularAcceleration r) (position r) (velocity r)
    (baseX r) (baseY r) (torque r) (disturbanceForce r) (disturbanceDecay r)
    (lastTime r) v (groundSpeed r) (trail r) (maxTrailLength r).

Definition set_groundSpeed (v : num) (r : BalancingRobot) : BalancingRobot :=
  mkRobot (mass r) (length r) (gravity r) (friction r) (angle r)
    (angularVelocity r) (angularAcceleration r) (position r) (velocity r)
    (baseX r) (baseY r) (torque r) (disturbanceForce r) (disturbanceDecay r)
    (lastTime r) (groundOffset r) v (trail r) (maxTrailLength r).

Definition set_trail (v : list TrailPoint) (r : BalancingRobot) : BalancingRobot :=
  mkRobot (mass r) (length r) (gravity r) (friction r) (angle r)
    (angularVelocity r) (angularAcceleration r) (position r) (velocity r)
    (baseX r) (baseY r) (torque r) (disturbanceForce r) (disturbanceDecay r)
    (lastTime r) (groundOffset r) (groundSpeed r) v (maxTrailLength r).

(** [constructor(canvas)]; [width] and [height] are those of the canvas. *)
Definition constructor (width height : num) (now : Z) : BalancingRobot :=
  {| mass := Fin 1.0;
     length := Fin 0.5;
     gravity := Fin 9.81;
     friction := Fin 0.1;
     angle := Fin 0;
     angularVelocity := Fin 0;
     angularAcceleration := Fin 0;
     position := Fin 0;
     velocity := Fin 0;
     baseX := width / Fin 2;
     baseY := height - Fin 100;
     torque := Fin 0;
     disturbanceForce := Fin 0;
     disturbanceDecay := Fin 0.95;
     lastTime := now;
     groundOffset := Fin 0;
     groundSpeed := Fin 0;
     trail := [];
     maxTrailLength := 100 |}.

(** [reset()]; [random] is the value of [Math.random()]. *)
Definition reset (r : BalancingRobot) (random : num) (now : Z) : BalancingRobot :=
  let r := set_angle (random * Fin 0.2 - Fin 0.1) r in
  let r := set_angularVelocity (Fin 0) r in
  let r := set_angularAcceleration (Fin 0) r in
  let r := set_position (Fin 0) r in
  let r := set_velocity (Fin 0) r in
  let r := set_torque (Fin 0) r in
  let r := set_disturbanceForce (Fin 0) r in
  let r := set_groundOffset (Fin 0) r in
  let r := set_groundSpeed (Fin 0) r in
  let r := set_trail [] r in
  set_lastTime now r.

(** [applyDisturbance(force = 5)] *)
Definition applyDisturbance (r : BalancingRobot) (force : option num) : BalancingRobot :=
  set_disturbanceForce (match force with Some f => f | None => Fin 5 end) r.

(** [setTorque(torque)] *)
Definition setTorque (r : BalancingRobot) (torque : num) : BalancingRobot :=
  set_torque torque r.

(** The timestep of [update]: the elapsed clock time in seconds, capped. *)
Definition deltaTime (r : BalancingRobot) (currentTime : Z) : num :=
  min (of_Z (currentTime - lastTime r) / Fin 1000) (Fin 0.02).

Section WithSin.

(** [Math.sin], which the language leaves to the implementation. *)
Variable Math_sin : num -> num.

(** [update()]; [currentTime] is the reading of [Date.now()]. *)
Definition update (r : BalancingRobot) (currentTime : Z) : BalancingRobot :=
  let deltaTime := deltaTime r currentTime in
  let r := set_lastTime currentTime r in
  if deltaTime <=? Fin 0 then r
  else
    let gravityTerm := gravity r / length r * Math_sin (angle r) in
    let frictionTerm :=
      friction r / (mass r * length r * length r) * angularVelocity r in
    let controlTerm := torque r / (mass r * length r * length r) in
    let disturbanceTerm :=
      disturbanceForce r / (mass r * length r * length r) in
    let r := set_angularAcceleration
               (gravityTerm - frictionTerm + controlTerm + disturbanceTerm) r in
    let r := set_angularVelocity
               (angularVelocity r + angularAcceleration r * deltaTime) r in
    let r := set_angle (angle r + angularVelocity r * deltaTime) r in
    let horizontalAcceleration := Math_sin (angle r) * gravity r * Fin 0.5 in
    let r := set_velocity (velocity r + horizontalAcceleration * deltaTime) r in
    let r := set_velocity (velocity r * Fin 0.98) r in
    let r := set_position (position r + velocity r * deltaTime) r in
    let r := set_groundSpeed (- velocity r * Fin 0.3) r in
    let r := set_groundOffset
               (rem (groundOffset r + groundSpeed r * deltaTime * Fin 50)
                    (Fin 100)) r in
    let r := set_disturbanceForce (disturbanceForce r * disturbanceDecay r) r in
    let r := set_angle
               (max (- Math_PI / Fin 2) (min (Math_PI / Fin 2) (angle r))) r in
    let baseX_ := baseX r + position r * Fin 10 in
    let r := set_trail (trail r ++ [mkTrailPoint baseX_ (baseY r) currentTime]) r in
    let r :=
      if (Z.of_nat (List.length (trail r)) >? maxTrailLength r)%Z then
        set_trail (tl (trail r)) r
      else r in
    let trailTimeout := 2000%Z in
    set_trail
      (filter (fun point => (currentTime - time point <? trailTimeout)%Z)
              (trail r)) r.

End WithSin.

(** [getAngleDegrees()] *)
Definition getAngleDegrees (r : BalancingRobot) : num :=
  angle r * Fin 180 / Math_PI.

(** The snapshot [getState()] returns. *)
Record RobotState : Type := mkRobotState {
  st_angle : num;
  st_angleDegrees : num;
  st_angularVelocity : num;
  st_angularAcceleration : num;
  st_torque : num;
  st_position : num;
  st_velocity : num
}.

(** [getState()] *)
Definition getState (r : BalancingRobot) : RobotState :=
  {| st_angle := angle r;
     st_angleDegrees := getAngleDegrees r;
     st_angularVelocity := angularVelocity r;
     st_angularAcceleration := angularAcceleration r;
     st_torque := torque r;
     st_position := position r;
     st_velocity := velocity r |}.

End Robot0.

(** ** The second [BalancingRobot] class

    It holds the controller it was constructed with in [pidController] (an
    instance of the class of [pid-controller-enhanced.js], which is the one
    that registers itself as [window.PIDController]).  The canvas and the
    drawing data are left out as for the first class. *)

Module Robot1.

Record TrailPoint : Type := mkTrailPoint {
  x : num;
  y : num;
  time : Z
}.

Record BalancingRobot : Type := mkRobot {
  pidController : Enhanced.PIDController;
  mass : num;
  length : num;
  gravity : num;
  friction : num;
  angle : num;
  angularVelocity : num;
  angularAcceleration : num;
  position : num;
  velocity : num;
  baseX : num;
  baseY : num;
  torque : num;
  disturbanceForce : num;
  disturbanceDecay : num;
  lastTime : Z;
  groundOffset : num;
  groundSpeed : num;
  trail : list TrailPoint;
  maxTrailLength : Z
}.

(** Assignments [this.f = v]. *)
Definition set_pidController (v : Enhanced.PIDController) (r : BalancingRobot) : BalancingRobot :=
  mkRobot v (mass r) (length r) (gravity r) (friction r) (angle r)
    (angularVelocity r) (angularAcceleration r) (position r) (velocity r)
    (baseX r) (baseY r) (torque r) (disturbanceForce r) (disturbanceDecay r)
    (lastTime r) (groundOffset r) (groundSpeed r) (trail r) (maxTrailLength
    r).

Definition set_angle (v : num) (r : BalancingRobot) : BalancingRobot :=
  mkRobot (pidController r) (mass r) (length r) (gravity r) (friction r) v
    (angularVelocity r) (angularAcceleration r) (position r) (velocity r)
    (baseX r) (baseY r) (torque r) (disturbanceForce r) (disturbanceDecay r)
    (lastTime r) (groundOffset r) (groundSpeed r) (trail r) (maxTrailLength
    r).

Definition set_angularVelocity (v : num) (r : BalancingRobot) : BalancingRobot :=
  mkRobot (pidController r) (mass r) (length r) (gravity r) (friction r)
    (angle r) v (angularAcceleration r) (position r) (velocity r) (baseX r)
    (baseY r) (torque r) (disturbanceForce r) (disturbanceDecay r) (lastTime
    r) (groundOffset r) (groundSpeed r) (trail r) (maxTrailLength r).

Definition set_angularAcceleration (v : num) (r : BalancingRobot) : BalancingRobot :=
  mkRobot (pidController r) (mass r) (length r) (gravity r) (friction r)
    (angle r) (angularVelocity r) v (position r) (velocity r) (baseX r)
    (baseY r) (torque r) (disturbanceForce r) (disturbanceDecay r) (lastTime
    r) (groundOffset r) (groundSpeed r) (trail r) (maxTrailLength r).

Definition set_position (v : num) (r : BalancingRobot) : BalancingRobot :=
  mkRobot (pidController r) (mass r) (length r) (gravity r) (friction r)
    (angle r) (angularVelocity r) (angularAcceleration r) v (velocity r)
    (baseX r) (baseY r) (torque r) (disturbanceForce r) (disturbanceDecay r)
    (lastTime r) (groundOffset r) (groundSpeed r) (trail r) (maxTrailLength
    r).

Definition set_velocity (v : num) (r : BalancingRobot) : BalancingRobot :=
  mkRobot (pidController r) (mass r) (length r) (gravity r) (friction r)
    (angle r) (angularVelocity r) (angularAcceleration r) (position r) v
    (baseX r) (baseY r) (torque r) (disturbanceForce r) (disturbanceDecay r)
    (lastTime r) (groundOffset r) (groundSpeed r) (trail r) (maxTrailLength
    r).

Definition set_torque (v : num) (r : BalancingRobot) : BalancingRobot :=
  mkRobot (pidController r) (mass r) (length r) (gravity r) (friction r)
    (angle r) (angularVelocity r) (angularAcceleration r) (position r)
    (velocity r) (baseX r) (baseY r) v (disturbanceForce r)
    (disturbanceDecay r) (lastTime r) (groundOffset r) (groundSpeed r)
    (trail r) (maxTrailLength r).

Definition set_disturbanceForce (v : num) (r : BalancingRobot) : BalancingRobot :=
  mkRobot (pidController r) (mass r) (length r) (gravity r) (friction r)
    (angle r) (angularVelocity r) (angularAcceleration r) (position r)
    (velocity r) (baseX r) (baseY r) (torque r) v (disturbanceDecay r)
    (lastTime r) (groundOffset r) (groundSpeed r) (trail r) (maxTrailLength
    r).

Definition set_lastTime (v : Z) (r : BalancingRobot) : BalancingRobot :=
  mkRobot (pidController r) (mass r) (length r) (gravity r) (friction r)
    (angle r) (angularVelocity r) (angularAcceleration r) (position r)
    (velocity r) (baseX r) (baseY r) (torque r) (disturbanceForce r)
    (disturbanceDecay r) v (groundOffset r) (groundSpeed r) (trail r)
    (maxTrailLength r).

Definition set_groundOffset (v : num) (r : BalancingRobot) : BalancingRobot :=
  mkRobot (pidController r) (mass r) (length r) (gravity r) (friction r)
    (angle r) (angularVelocity r) (angularAcceleration r) (position r)
    (velocity r) (baseX r) (baseY r) (torque r) (disturbanceForce r)
    (disturbanceDecay r) (lastTime r) v (groundSpeed r) (trail r)
    (maxTrailLength r).

Definition set_groundSpeed (v : num) (r : BalancingRobot) : BalancingRobot :=
  mkRobot (pidController r) (mass r) (length r) (gravity r) (friction r)
    (angle r) (angularVelocity r) (angularAcceleration r) (position r)
    (velocity r) (baseX r) (baseY r) (torque r) (disturbanceForce r)
    (disturbanceDecay r) (lastTime r) (groundOffset r) v (trail r)
    (maxTrailLength r).

Definition set_trail (v : list TrailPoint) (r : BalancingRobot) : BalancingRobot :=
  mkRobot (pidController r) (mass r) (length r) (gravity r) (friction r)
    (angle r) (angularVelocity r) (angularAcceleration r) (position r)
    (velocity r) (baseX r) (baseY r) (torque r) (disturbanceForce r)
    (disturbanceDecay r) (lastTime r) (groundOffset r) (groundSpeed r) v
    (maxTrailLength r).

(** [constructor(canvas, pidController)].  When no valid controller is
    passed, the constructor builds [new window.PIDController(2.5, 0.1, 0.8)],
    whose two clock readings are [pidNow]. *)
Definition constructor (width height : num)
    (pidController_ : option Enhanced.PIDController) (pidNow : Z * Z) (now : Z)
    : BalancingRobot :=
  {| pidController :=
       match pidController_ with
       | Some c => c
       | None =>
           Enhanced.constructor (fst pidNow) (snd pidNow)
             (Some (Fin 2.5)) (Some (Fin 0.1)) (Some (Fin 0.8))
       end;
     mass := Fin 1.0;
     length := Fin 0.5;
     gravity := Fin 9.81;
     friction := Fin 0.1;
     angle := Fin 0;
     angularVelocity := Fin 0;
     angularAcceleration := Fin 0;
     position := Fin 0;
     velocity := Fin 0;
     baseX := width / Fin 2;
     baseY := height - Fin 100;
     torque := Fin 0;
     disturbanceForce := Fin 0;
     disturbanceDecay := Fin 0.95;
     lastTime := now;
     groundOffset := Fin 0;
     groundSpeed := Fin 0;
     trail := [];
     maxTrailLength := 100 |}.

(** [reset()]; [now] is the reading of [Date.now()] stored in [lastTime]
    and [pidNow] the one made by the controller's own [reset]. *)
Definition reset (r : BalancingRobot) (now pidNow : Z) : BalancingRobot :=
  let r := set_angle (Fin 0) r in
  let r := set_angularVelocity (Fin 0) r in
  let r := set_angularAcceleration (Fin 0) r in
  let r := set_position (Fin 0) r in
  let r := set_velocity (Fin 0) r in
  let r := set_torque (Fin 0) r in
  let r := set_disturbanceForce (Fin 0) r in
  let r := set_groundOffset (Fin 0) r in
  let r := set_groundSpeed (Fin 0) r in
  let r := set_trail [] r in
  let r := set_lastTime now r in
  set_pidController (Enhanced.reset (pidController r) pidNow) r.

(** [applyDisturbance(force = 5)] *)
Definition applyDisturbance (r : BalancingRobot) (force : option num) : BalancingRobot :=
  set_disturbanceForce (match force with Some f => f | None => Fin 5 end) r.

(** [setTorque(torque)] *)
Definition setTorque (r : BalancingRobot) (torque : num) : BalancingRobot :=
  set_torque torque r.

(** The timestep of [update]: the elapsed clock time in seconds, capped. *)
Definition deltaTime (r : BalancingRobot) (currentTime : Z) : num :=
  min (of_Z (currentTime - lastTime r) / Fin 1000) (Fin 0.1).

Section WithSin.

Variable Math_sin : num -> num.

(** [update()]; [currentTime] is the reading of [Date.now()]. *)
Definition update (r : BalancingRobot) (currentTime : Z) : BalancingRobot :=
  let deltaTime := deltaTime r currentTime in
  let r := set_lastTime currentTime r in
  if isNaN deltaTime || (deltaTime <=? Fin 0) then r
  else
    let g := gravity r in
    let l := length r in
    let m := mass r in
    let b := friction r in
    let gravityTerm := g / l * Math_sin (angle r) in
    let dampingTerm := b / (m * l * l) * angularVelocity r in
    let controlTerm := torque r / (m * l * l) in
    let disturbanceTerm := disturbanceForce r / (m * l * l) in
    let r := set_angularAcceleration
               (gravityTerm - dampingTerm + controlTerm + disturbanceTerm) r in
    let r := set_angularVelocity
               (angularVelocity r + angularAcceleration r * deltaTime) r in
    let r := set_angle (angle r + angularVelocity r * deltaTime) r in
    let targetSpeed := Math_sin (angle r) * Fin 5 in
    let acceleration := (targetSpeed - velocity r) * Fin 2.0 in
    let r := set_velocity (velocity r + acceleration * deltaTime) r in
    let r := set_velocity (velocity r * Fin 0.98) r in
    let r := set_groundSpeed (- velocity r * Fin 20) r in
    let r := set_groundOffset
               (rem (groundOffset r + groundSpeed r * deltaTime) (Fin 100)) r in
    let r := set_disturbanceForce (disturbanceForce r * disturbanceDecay r) r in
    let r := set_angle
               (max (- Math_PI / Fin 2) (min (Math_PI / Fin 2) (angle r))) r in
    let trailX := baseX r + Math_sin (angle r) * Fin 50 in
    let r := set_trail
               (trail r ++ [mkTrailPoint trailX (baseY r + Fin 20) currentTime]) r in
    let r :=
      if (Z.of_nat (List.length (trail r)) >? maxTrailLength r)%Z then
        set_trail (tl (trail r)) r
      else r in
    let trailTimeout := 3000%Z in
    set_trail
      (filter (fun point => (currentTime - time point <? trailTimeout)%Z)
              (trail r)) r.

End WithSin.

(** [getAngleDegrees()] *)
Definition getAngleDegrees (r : BalancingRobot) : num :=
  angle r * Fin 180 / Math_PI.

Record RobotState : Type := mkRobotState {
  st_angle : num;
  st_angleDegrees : num;
  st_angularVelocity : num;
  st_angularAcceleration : num;
  st_torque : num;
  st_position : num;
  st_velocity : num
}.

(** [getState()] *)
Definition getState (r : BalancingRobot) : RobotState :=
  {| st_angle := angle r;
     st_angleDegrees := getAngleDegrees r;
     st_angularVelocity := angularVelocity r;
     st_angularAcceleration := angularAcceleration r;
     st_torque := torque r;
     st_position := position r;
     st_velocity := velocity r |}.

End Robot1.

(** ** The simulation loop of [PIDSimulatorApp]

    The application builds one [window.PIDController] and hands it to the
    [window.BalancingRobot] it builds next: [this.pidController] and
    [this.robot.pidController] are the same object, so the model keeps it
    once, inside the robot.  Only the part of the application that drives the
    two components is modelled; the display, the graph and the DOM are not. *)

Module App.

Record PIDSimulatorApp : Type := mkApp {
  robot : Robot1.BalancingRobot;
  isRunning : bool;
  lastUpdateTime : Z
}.

(** [this.pidController] *)
Definition pidController (app : PIDSimulatorApp) : Enhanced.PIDController :=
  Robot1.pidController (robot app).

Definition set_robot (v : Robot1.BalancingRobot) (app : PIDSimulatorApp)
    : PIDSimulatorApp :=
  mkApp v (isRunning app) (lastUpdateTime app).

Definition set_pidController (v : Enhanced.PIDController)
    (app : PIDSimulatorApp) : PIDSimulatorApp :=
  set_robot (Robot1.set_pidController v (robot app)) app.

Definition set_isRunning (v : bool) (app : PIDSimulatorApp) : PIDSimulatorApp :=
  mkApp (robot app) v (lastUpdateTime app).

Definition set_lastUpdateTime (v : Z) (app : PIDSimulatorApp) : PIDSimulatorApp :=
  mkApp (robot app) (isRunning app) v.

(** The readings of [Date.now()] during one call of [animate], in the
    order they are made: by [animate] itself, by [robot.update], by
    [calculate] and by [storeHistory]. *)
Record Clock : Type := mkClock {
  t_animate : Z;
  t_robot : Z;
  t_calculate : Z;
  t_store : Z
}.

Section WithSin.

Variable Math_sin : num -> num.

(** [animate()], up to the call of [setTorque].  The controller's
    [update] returns a number, so [pidResult.output] is [undefined]; the
    robot only ever uses its torque in arithmetic, where [undefined] is
    [NaN]. *)
Definition animate (app : PIDSimulatorApp) (clk : Clock) : PIDSimulatorApp :=
  if negb (isRunning app) then app
  else
    let app := set_lastUpdateTime (t_animate clk) app in
    let app := set_robot (Robot1.update Math_sin (robot app) (t_robot clk)) app in
    let robotState := Robot1.getState (robot app) in
    let '(c, pidResult) :=
      Enhanced.update (pidController app) (t_calculate clk) (t_store clk)
        (Robot1.st_angleDegrees robotState) in
    let app := set_pidController c app in
    set_robot (Robot1.setTorque (robot app) NaN) app.

(** [startSimulation()], up to its first call of [animate]. *)
Definition startSimulation (app : PIDSimulatorApp) (now : Z) (clk : Clock)
    : PIDSimulatorApp :=
  if negb (isRunning app) then
    let app := set_isRunning true app in
    let app := set_lastUpdateTime now app in
    animate app clk
  else app.

(** [pauseSimulation()] *)
Definition pauseSimulation (app : PIDSimulatorApp) : PIDSimulatorApp :=
  set_isRunning false app.

(** [resetSimulation()]: the robot's [reset] already resets the controller,
    which is then reset a second time. *)
Definition resetSimulation (app : PIDSimulatorApp) (now pidNow pidNow' : Z)
    : PIDSimulatorApp :=
  let app := pauseSimulation app in
  let app := set_robot (Robot1.reset (robot app) now pidNow) app in
  set_pidController (Enhanced.reset (pidController app) pidNow') app.

(** [updatePIDParameters()], with the parsed slider values. *)
Definition updatePIDParameters (app : PIDSimulatorApp) (kp ki kd : num)
    : PIDSimulatorApp :=
  set_pidController (Enhanced.setGains (pidController app) kp ki kd) app.

(** [addDisturbance()]; [random] is the value of [Math.random()]. *)
Definition addDisturbance (app : PIDSimulatorApp) (random : num)
    : PIDSimulatorApp :=
  let force := Fin 3 + random * Fin 4 in
  set_robot (Robot1.applyDisturbance (robot app) (Some force)) app.

(** What happens to the application from outside: an animation frame, or
    one of the user's actions. *)
Inductive Event : Type :=
| Frame (clk : Clock)
| Start (now : Z) (clk : Clock)
| Pause
| Reset (now pidNow pidNow' : Z)
| Gains (kp ki kd : num)
| Disturb (random : num).

Definition step (app : PIDSimulatorApp) (e : Event) : PIDSimulatorApp :=
  match e with
  | Frame clk => animate app clk
  | Start now clk => startSimulation app now clk
  | Pause => pauseSimulation app
  | Reset now pidNow pidNow' => resetSimulation app now pidNow pidNow'
  | Gains kp ki kd => updatePIDParameters app kp ki kd
  | Disturb random => addDisturbance app random
  end.

(** The states a run goes through, one per event. *)
Fixpoint trajectory (app : PIDSimulatorApp) (events : list Event)
    : list PIDSimulatorApp :=
  match events with
  | [] => []
  | e :: events' => let app' := step app e in app' :: trajectory app' events'
  end.

End WithSin.

End App.

(** ** The data of [PerformanceGraph]

    The class keeps five parallel arrays, one entry per sample.  The canvas,
    the colours and the drawing methods are left out. *)

Module Graph.

Record PerformanceGraph : Type := mkGraph {
  timeData : list num;
  angleData : list num;
  errorData : list num;
  outputData : list num;
  setpointData : list num;
  maxDataPoints : Z;
  timeWindow : num;
  showSetpoint : bool;
  showError : bool;
  showOutput : bool;
  startTime : Z
}.

(** [constructor(canvas)]; [now] is the reading of [Date.now()]. *)
Definition constructor (now : Z) : PerformanceGraph :=
  {| timeData := [];
     angleData := [];
     errorData := [];
     outputData := [];
     setpointData := [];
     maxDataPoints := 500;
     timeWindow := Fin 10;
     showSetpoint := true;
     showError := true;
     showOutput := true;
     startTime := now |}.

(** [addDataPoint(angle, error, output, setpoint = 0)] *)
Definition addDataPoint (g : PerformanceGraph) (now : Z)
    (angle error output : num) (setpoint : option num) : PerformanceGraph :=
  let setpoint := match setpoint with Some s => s | None => Fin 0 end in
  let currentTime := of_Z (now - startTime g) / Fin 1000 in
  let timeData_ := timeData g ++ [currentTime] in
  let angleData_ := angleData g ++ [angle] in
  let errorData_ := errorData g ++ [error] in
  let outputData_ := outputData g ++ [output] in
  let setpointData_ := setpointData g ++ [setpoint] in
  if (Z.of_nat (List.length timeData_) >? maxDataPoints g)%Z then
    mkGraph (tl timeData_) (tl angleData_) (tl errorData_) (tl outputData_)
      (tl setpointData_) (maxDataPoints g) (timeWindow g) (showSetpoint g)
      (showError g) (showOutput g) (startTime g)
  else
    mkGraph timeData_ angleData_ errorData_ outputData_ setpointData_
      (maxDataPoints g) (timeWindow g) (showSetpoint g) (showError g)
      (showOutput g) (startTime g).

(** [clear()] *)
Definition clear (g : PerformanceGraph) (now : Z) : PerformanceGraph :=
  mkGraph [] [] [] [] [] (maxDataPoints g) (timeWindow g) (showSetpoint g)
    (showError g) (showOutput g) now.

(** [setDisplayOptions(showSetpoint, showError, showOutput)] *)
Definition setDisplayOptions (g : PerformanceGraph)
    (showSetpoint_ showError_ showOutput_ : bool) : PerformanceGraph :=
  mkGraph (timeData g) (angleData g) (errorData g) (outputData g)
    (setpointData g) (maxDataPoints g) (timeWindow g) showSetpoint_
    showError_ showOutput_ (startTime g).

(** [calculateTimeRange()], as the pair of [min] and [max]. *)
Definition calculateTimeRange (g : PerformanceGraph) : num * num :=
  if (List.length (timeData g) =? 0)%nat then (Fin 0, timeWindow g)
  else
    let maxTime := max_of (timeData g) in
    let minTime := max (Fin 0) (maxTime - timeWindow g) in
    (minTime, maxTime).

(** A call of one of the methods that change the graph. *)
Inductive Call : Type :=
| AddDataPoint (now : Z) (angle error output : num) (setpoint : option num)
| Clear (now : Z)
| SetDisplayOptions (showSetpoint showError showOutput : bool).

Definition call (g : PerformanceGraph) (k : Call) : PerformanceGraph :=
  match k with
  | AddDataPoint now angle error output setpoint =>
      addDataPoint g now angle error output setpoint
  | Clear now => clear g now
  | SetDisplayOptions a b c => setDisplayOptions g a b c
  end.

Definition run (g : PerformanceGraph) (calls : list Call) : PerformanceGraph :=
  fold_left call calls g.

(** The five arrays have one entry per sample, and no more samples than
    [maxDataPoints]. *)
Definition aligned (g : PerformanceGraph) : Prop :=
  List.length (angleData g) = List.length (timeData g)
  /\ List.length (errorData g) = List.length (timeData g)
  /\ List.length (outputData g) = List.length (timeData g)
  /\ List.length (setpointData g) = List.length (timeData g)
  /\ (Z.of_nat (List.length (timeData g)) <= maxDataPoints g)%Z.

End Graph.

(** ** Sequences of method calls and predicates on states *)

(** A number that is finite and not zero. *)
Definition is_nonzero (a : num) : bool :=
  match a with
  | Fin q => negb (Qeq_bool q 0)
  | _ => false
  end.

(** A timestep argument that is omitted or a finite number. *)
Definition finite_dt (deltaTime : option num) : bool :=
  match deltaTime with
  | None => true
  | Some dt => is_finite dt
  end.

Module EnhancedCalls.
Import Enhanced.

(** Every numeric field of the controller holds a finite number. *)
Definition finite_controller (c : PIDController) : bool :=
  is_finite (kp c) && is_finite (ki c) && is_finite (kd c)
  && is_finite (setpoint c) && is_finite (previousError c)
  && is_finite (integral c) && is_finite (lastOutput c)
  && is_finite (integralMax c) && is_finite (integralMin c)
  && is_finite (outputMax c) && is_finite (outputMin c)
  && is_finite (alpha c) && is_finite (filteredDerivative c)
  && is_finite (maxRate c).

(** The limits and rates are ordered the way the constructor sets them:
    [integralMin <= integralMax], [outputMin <= outputMax],
    [0 <= alpha <= 1] and [0 <= maxRate]. *)
Definition well_configured (c : PIDController) : bool :=
  (integralMin c <=? integralMax c) && (outputMin c <=? outputMax c)
  && between (Fin 0) (alpha c) (Fin 1) && (Fin 0 <=? maxRate c).

(** A call of one of the methods that change the controller. *)
Inductive Call : Type :=
| Calculate (currentTime stamp : Z) (setpoint currentValue : num)
    (deltaTime : option num)
| Update (currentTime stamp : Z) (currentValue : num)
| StoreHistory (stamp : Z) (error output : num)
    (components : option Components)
| SetGains (kp ki kd : num)
| SetParameters (kp ki kd : num)
| Reset (now : Z).

Definition call (c : PIDController) (k : Call) : PIDController :=
  match k with
  | Calculate currentTime stamp sp cv dt =>
      fst (calculate c currentTime stamp sp cv dt)
  | Update currentTime stamp cv => fst (update c currentTime stamp cv)
  | StoreHistory stamp e o comps => storeHistory c stamp e o comps
  | SetGains kp ki kd => setGains c kp ki kd
  | SetParameters kp ki kd => setParameters c kp ki kd
  | Reset now => reset c now
  end.

Definition run (c : PIDController) (calls : list Call) : PIDController :=
  fold_left call calls c.

(** The setpoint, the measurement and the timestep of a call are finite
    numbers; the gains of [setGains] and [setParameters] are arbitrary. *)
Definition finite_call (k : Call) : bool :=
  match k with
  | Calculate _ _ sp cv dt => is_finite sp && is_finite cv && finite_dt dt
  | Update _ _ cv => is_finite cv
  | _ => true
  end.

(** What the runs of the enhanced controller preserve: the integral
    limits and the setpoint are finite, and both [0] and the accumulator
    lie between the limits. *)
Definition band_inv (c : PIDController) : bool :=
  is_finite (integralMin c) && is_finite (integralMax c)
  && is_finite (setpoint c)
  && between (integralMin c) (Fin 0) (integralMax c)
  && between (integralMin c) (integral c) (integralMax c).

End EnhancedCalls.

Module BasicCalls.
Import Basic.

Inductive Call : Type :=
| Update (currentTime : Z) (currentValue : num)
| SetGains (kp ki kd : num)
| SetSetpoint (setpoint : num)
| Reset (now : Z).

Definition call (c : PIDController) (k : Call) : PIDController :=
  match k with
  | Update currentTime cv => fst (update c currentTime cv)
  | SetGains kp ki kd => setGains c kp ki kd
  | SetSetpoint sp => setSetpoint c sp
  | Reset now => reset c now
  end.

Definition run (c : PIDController) (calls : list Call) : PIDController :=
  fold_left call calls c.

Definition finite_call (k : Call) : bool :=
  match k with
  | Update _ cv => is_finite cv
  | SetSetpoint sp => is_finite sp
  | _ => true
  end.

Definition band_inv (c : PIDController) : bool :=
  is_finite (integralMin c) && is_finite (integralMax c)
  && is_finite (setpoint c)
  && between (integralMin c) (Fin 0) (integralMax c)
  && between (integralMin c) (integral c) (integralMax c).

End BasicCalls.

(** ** Closed forms on finite numbers

    The value a finite number carries, and the clamp
    [Math.max(lo, Math.min(hi, x))] on such values. *)

Definition to_Q (a : num) : Q :=
  match a with Fin q => q | _ => 0%Q end.

Definition Qclamp (lo hi x : Q) : Q := Qmaxb lo (Qminb hi x).

(** What one call of [Enhanced.calculate] computes when the controller, the
    setpoint and the measurement are finite and the timestep in force is
    [q]: the error, the clamped accumulator, the filtered derivative, the
    sum of the three terms and the output after both clamps. *)
Module EnhancedForm.
Import Enhanced.

Section ClosedForm.
Variables (c : PIDController) (sp cv : num) (q : Q).
Local Open Scope Q_scope.

Definition errorQ : Q := to_Q sp - to_Q cv.

Definition integralQ : Q :=
  Qclamp (to_Q (integralMin c)) (to_Q (integralMax c))
    (to_Q (integral c) + errorQ * q).

Definition derivativeQ : Q :=
  to_Q (alpha c) * ((errorQ - to_Q (previousError c)) / q)
  + (1 - to_Q (alpha c)) * to_Q (filteredDerivative c).

Definition rawQ : Q :=
  to_Q (kp c) * errorQ + to_Q (ki c) * integralQ + to_Q (kd c) * derivativeQ.

Definition outputQ : Q :=
  Qclamp (to_Q (outputMin c)) (to_Q (outputMax c))
    (Qclamp (to_Q (lastOutput c) - to_Q (maxRate c) * q)
            (to_Q (lastOutput c) + to_Q (maxRate c) * q) rawQ).

End ClosedForm.

(** The fields [calculate] and [storeHistory] never write. *)
Definition same_settings (c c' : PIDController) : Prop :=
  kp c' = kp c /\ ki c' = ki c /\ kd c' = kd c
  /\ integralMax c' = integralMax c /\ integralMin c' = integralMin c
  /\ outputMax c' = outputMax c /\ outputMin c' = outputMin c
  /\ alpha c' = alpha c /\ maxRate c' = maxRate c
  /\ maxHistoryLength c' = maxHistoryLength c.

End EnhancedForm.

(** ** Clocks and histories *)


(** The two histories have the same length, at most the capacity [1000]
    the constructors store in [maxHistoryLength]. *)
Definition history_inv (c : Enhanced.PIDController) : Prop :=
  length (Enhanced.errorHistory c) = length (Enhanced.outputHistory c)
  /\ (length (Enhanced.errorHistory c) <= 1000)%nat
  /\ Enhanced.maxHistoryLength c = 1000%Z.

Definition basic_history_inv (c : Basic.PIDController) : Prop :=
  length (Basic.errorHistory c) = length (Basic.outputHistory c)
  /\ (length (Basic.errorHistory c) <= 1000)%nat
  /\ Basic.maxHistoryLength c = 1000%Z.





(** ** The invariant of the auto-tune loop

    With a setpoint equal to the process variable the error of every call
    of [calculate] is zero.  From the second iteration on the integral term
    [A] is constant and the derivative term [B] shrinks by the factor
    [1 - alpha], so the sum [A + B] of the terms is monotone, and the output
    [L], which moves towards it, first moves one way and then the other.
    [k], the number of peaks recorded, counts sign changes of the output. *)

Section TuneInvariant.
Import Enhanced EnhancedCalls.
Local Open Scope Q_scope.

Inductive phase_inv (A B L : Q) (k : nat) : Prop :=
| dec_rising : 0 <= B -> L <= A + B -> (L < 0 -> k = 0%nat) -> (k <= 1)%nat ->
    phase_inv A B L k
| dec_falling : 0 <= B -> A + B <= L -> (0 < L -> (k <= 1)%nat) -> (k <= 2)%nat ->
    phase_inv A B L k
| inc_falling : B <= 0 -> A + B <= L -> (0 < L -> k = 0%nat) -> (k <= 1)%nat ->
    phase_inv A B L k
| inc_rising : B <= 0 -> L <= A + B -> (L < 0 -> (k <= 1)%nat) -> (k <= 2)%nat ->
    phase_inv A B L k.


(** The state of the loop after at least one iteration. *)
Definition tune_running (c : PIDController) (k : nat) (lastOut : num) : Prop :=
  finite_controller c = true /\ well_configured c = true
  /\ lastOutput c = lastOut
  /\ to_Q (previousError c) == 0
  /\ to_Q (integralMin c) <= to_Q (integral c) <= to_Q (integralMax c)
  /\ to_Q (outputMin c) <= to_Q (lastOutput c) <= to_Q (outputMax c)
  /\ phase_inv (to_Q (ki c) * to_Q (integral c))
       (to_Q (kd c) * to_Q (filteredDerivative c)) (to_Q (lastOutput c)) k.


(** The state of the loop at the head of any iteration: before the first
    one no peak is recorded and the local [lastOutput] is [0]. *)
Definition tune_inv (c : PIDController) (k : nat) (lastOut : num) : Prop :=
  (k = 0%nat /\ lastOut = Fin 0 /\ finite_controller c = true
   /\ well_configured c = true)
  \/ tune_running c k lastOut.


End TuneInvariant.

(** ** Moving a run in time

    [shift_app delta app] is the application [app] as it would be had every
    clock reading it stored been [delta] milliseconds later: the
    [lastTime] fields, the time stamps of the trail and those of the output
    history.  [shift_event delta e] moves the clock readings of an event the
    same way. *)

Definition shift_entry (delta : Z) (e : Enhanced.OutputEntry) : Enhanced.OutputEntry :=
  Enhanced.mkOutputEntry (Enhanced.output e) (Enhanced.timestamp e + delta)
    (Enhanced.components e).

Definition shift_controller (delta : Z) (c : Enhanced.PIDController)
    : Enhanced.PIDController :=
  Enhanced.mkPID (Enhanced.kp c) (Enhanced.ki c) (Enhanced.kd c)
    (Enhanced.setpoint c) (Enhanced.previousError c) (Enhanced.integral c)
    (Enhanced.lastTime c + delta) (Enhanced.lastOutput c)
    (Enhanced.errorHistory c)
    (map (shift_entry delta) (Enhanced.outputHistory c))
    (Enhanced.maxHistoryLength c) (Enhanced.integralMax c)
    (Enhanced.integralMin c) (Enhanced.outputMax c) (Enhanced.outputMin c)
    (Enhanced.alpha c) (Enhanced.filteredDerivative c) (Enhanced.maxRate c)
    (Enhanced.lastUpdateTime c + delta).

Definition shift_point (delta : Z) (p : Robot1.TrailPoint) : Robot1.TrailPoint :=
  Robot1.mkTrailPoint (Robot1.x p) (Robot1.y p) (Robot1.time p + delta).

Definition shift_robot (delta : Z) (r : Robot1.BalancingRobot)
    : Robot1.BalancingRobot :=
  Robot1.mkRobot (shift_controller delta (Robot1.pidController r))
    (Robot1.mass r) (Robot1.length r) (Robot1.gravity r) (Robot1.friction r)
    (Robot1.angle r) (Robot1.angularVelocity r)
    (Robot1.angularAcceleration r) (Robot1.position r) (Robot1.velocity r)
    (Robot1.baseX r) (Robot1.baseY r) (Robot1.torque r)
    (Robot1.disturbanceForce r) (Robot1.disturbanceDecay r)
    (Robot1.lastTime r + delta) (Robot1.groundOffset r)
    (Robot1.groundSpeed r) (map (shift_point delta) (Robot1.trail r))
    (Robot1.maxTrailLength r).

Definition shift_app (delta : Z) (app : App.PIDSimulatorApp) : App.PIDSimulatorApp :=
  App.mkApp (shift_robot delta (App.robot app)) (App.isRunning app)
    (App.lastUpdateTime app + delta).

Definition shift_clock (delta : Z) (clk : App.Clock) : App.Clock :=
  App.mkClock (App.t_animate clk + delta) (App.t_robot clk + delta)
    (App.t_calculate clk + delta) (App.t_store clk + delta).

Definition shift_event (delta : Z) (e : App.Event) : App.Event :=
  match e with
  | App.Frame clk => App.Frame (shift_clock delta clk)
  | App.Start now clk => App.Start (now + delta) (shift_clock delta clk)
  | App.Pause => App.Pause
  | App.Reset now pidNow pidNow' =>
      App.Reset (now + delta) (pidNow + delta) (pidNow' + delta)
  | App.Gains kp ki kd => App.Gains kp ki kd
  | App.Disturb random => App.Disturb random
  end.

(** The part of the application state that holds no clock reading. *)
Definition physical (app : App.PIDSimulatorApp) :=
  let c := App.pidController app in
  (Robot1.getState (App.robot app),
   Robot1.disturbanceForce (App.robot app),
   (Enhanced.kp c, Enhanced.ki c, Enhanced.kd c),
   (Enhanced.setpoint c, Enhanced.previousError c, Enhanced.integral c,
    Enhanced.filteredDerivative c, Enhanced.lastOutput c),
   Enhanced.errorHistory c,
   map Enhanced.output (Enhanced.outputHistory c)).

(** ** Further predicates and runs *)



(** A number that is zero. *)
Definition is_zero (a : num) : bool :=
  match a with
  | Fin q => Qeq_bool q 0
  | _ => false
  end.

(** The second robot standing upright and still, with nothing acting on it,
    and with the finite parameters its constructor gives it. *)
Definition at_rest (r : Robot1.BalancingRobot) : bool :=
  is_zero (Robot1.angle r) && is_zero (Robot1.angularVelocity r)
  && is_zero (Robot1.velocity r) && is_zero (Robot1.torque r)
  && is_zero (Robot1.disturbanceForce r)
  && is_nonzero (Robot1.mass r) && is_nonzero (Robot1.length r)
  && is_finite (Robot1.gravity r) && is_finite (Robot1.friction r)
  && is_finite (Robot1.disturbanceDecay r).



(** * Properties *)

#[local] Arguments Qabs : simpl never.

(** ** Comparisons and clamping on finite numbers *)

Lemma Qltb_true (a b : Q) : Qltb a b = true <-> a < b.
Proof.
  unfold Qltb. rewrite Qlt_alt. destruct (a ?= b); intuition congruence.
Qed.

Lemma Qltb_false (a b : Q) : Qltb a b = false <-> b <= a.
Proof.
  split; intro H.
  - apply Qnot_lt_le. intro L. apply Qltb_true in L. congruence.
  - destruct (Qltb a b) eqn:E; [|reflexivity].
    apply Qltb_true in E. exfalso. exact (Qle_not_lt _ _ H E).
Qed.

Lemma Qleb_true (a b : Q) : Qleb a b = true <-> a <= b.
Proof.
  unfold Qleb. rewrite Qle_alt. destruct (a ?= b); intuition congruence.
Qed.

Lemma Qleb_false (a b : Q) : Qleb a b = false <-> b < a.
Proof.
  split; intro H.
  - apply Qnot_le_lt. intro L. apply Qleb_true in L. congruence.
  - destruct (Qleb a b) eqn:E; [|reflexivity].
    apply Qleb_true in E. exfalso. exact (Qlt_not_le _ _ H E).
Qed.

Lemma Qltb_cases (a b : Q) :
  (a < b /\ Qltb a b = true) \/ (b <= a /\ Qltb a b = false).
Proof.
  destruct (Qltb a b) eqn:E.
  - left. split; [now apply Qltb_true | reflexivity].
  - right. split; [now apply Qltb_false | reflexivity].
Qed.


Lemma Qmaxb_cases (a b : Q) :
  (a < b /\ Qmaxb a b = b) \/ (b <= a /\ Qmaxb a b = a).
Proof.
  unfold Qmaxb. destruct (Qltb_cases a b) as [[H ->] | [H ->]]; auto.
Qed.

Lemma Qminb_cases (a b : Q) :
  (b < a /\ Qminb a b = b) \/ (a <= b /\ Qminb a b = a).
Proof.
  unfold Qminb. destruct (Qltb_cases b a) as [[H ->] | [H ->]]; auto.
Qed.

Lemma Qclamp_between (lo hi x : Q) : (lo <= hi -> lo <= Qclamp lo hi x <= hi)%Q.
Proof.
  intro H. unfold Qclamp.
  destruct (Qminb_cases hi x) as [[? ->]|[? ->]];
  destruct (Qmaxb_cases lo x) as [[? E]|[? E]];
  destruct (Qmaxb_cases lo hi) as [[? E']|[? E']]; rewrite ?E, ?E'; lra.
Qed.

(** Clamping moves a value towards any point of the interval. *)
Lemma Qclamp_towards (lo hi x y : Q) :
  (lo <= y <= hi ->
   (x <= y -> x <= Qclamp lo hi x <= y)
   /\ (y <= x -> y <= Qclamp lo hi x <= x))%Q.
Proof.
  intro H. unfold Qclamp.
  destruct (Qminb_cases hi x) as [[? ->]|[? ->]];
  destruct (Qmaxb_cases lo x) as [[? E]|[? E]];
  destruct (Qmaxb_cases lo hi) as [[? E']|[? E']]; rewrite ?E, ?E';
  split; intro; lra.
Qed.

Lemma Qcompare_pos (q : Q) : (0 < q)%Q -> (q ?= 0)%Q = Gt.
Proof. intro H. apply Qgt_alt. exact H. Qed.

(** Splits the conjunctions of finiteness tests and replaces every number
    known to be finite by the rational it carries. *)
Ltac finite_fields :=
  repeat match goal with
  | H : _ && _ = true |- _ => apply andb_prop in H; destruct H
  | H : is_finite ?x = true |- _ =>
      destruct x; try discriminate H; clear H
  end.

(** ** The enhanced controller: one call of [calculate] *)

Section EnhancedCalculate.
Import Enhanced EnhancedCalls EnhancedForm.



(** On finite data [calculate] computes the closed forms. *)
Lemma calculate_finite c t s sp cv dt q :
  finite_controller c = true -> is_finite sp = true -> is_finite cv = true ->
  effectiveDeltaTime c t dt = Fin q -> (0 < q)%Q ->
  let c' := fst (calculate c t s sp cv dt) in
  snd (calculate c t s sp cv dt) = Fin (outputQ c sp cv q)
  /\ lastOutput c' = Fin (outputQ c sp cv q)
  /\ integral c' = Fin (integralQ c sp cv q)
  /\ filteredDerivative c' = Fin (derivativeQ c sp cv q)
  /\ previousError c' = Fin (errorQ sp cv)
  /\ setpoint c' = sp
  /\ same_settings c c'.
Proof.
  intros Hc Hsp Hcv Hdt Hq.
  unfold calculate. rewrite Hdt. clear Hdt.
  unfold finite_controller in Hc. destruct c.
  cbn [kp ki kd Enhanced.setpoint previousError integral lastOutput integralMax
       integralMin outputMax outputMin alpha filteredDerivative maxRate] in Hc.
  finite_fields.
  assert (Hc0 : (q ?= 0)%Q = Gt) by now apply Qcompare_pos.
  assert (Hl : Qltb 0 q = true) by now apply Qltb_true.
  cbn. rewrite Hc0, Hl. cbn.
  unfold storeHistory. cbn.
  destruct (_ >? _)%Z; cbn; unfold same_settings; cbn; repeat split;
    reflexivity.
Qed.


End EnhancedCalculate.

(** ** The integral accumulator stays within its band *)

Section EnhancedBand.
Import Enhanced EnhancedCalls EnhancedForm.

Lemma calculate_integral c t s sp cv dt :
  let c' := fst (calculate c t s sp cv dt) in
  integral c' =
    max (integralMin c)
        (min (integralMax c)
             (integral c + (sp - cv) * effectiveDeltaTime c t dt))
  /\ integralMin c' = integralMin c /\ integralMax c' = integralMax c
  /\ setpoint c' = sp.
Proof.
  unfold calculate. set (q := effectiveDeltaTime c t dt). clearbody q.
  destruct (q >? Fin 0); cbn; unfold storeHistory; cbn; destruct (_ >? _)%Z; cbn; auto.
Qed.









End EnhancedBand.

Section BasicBand.
Import Basic BasicCalls.





End BasicBand.


(** ** A degenerate timestep in [calculate] *)

Lemma elapsed_nonpos (d : Z) : (d <= 0)%Z -> Qleb (inject_Z d / 1000) 0 = true.
Proof.
  intro H. apply Qleb_true.
  unfold Qdiv. setoid_replace 0%Q with (0 * / 1000)%Q by reflexivity.
  apply Qmult_le_compat_r; [|discriminate].
  change 0%Q with (inject_Z 0). rewrite <- Zle_Qle. exact H.
Qed.

Lemma elapsed_pos (d : Z) : (0 < d)%Z -> (0 < inject_Z d / 1000)%Q.
Proof.
  intro H. apply Qlt_shift_div_l; [reflexivity|].
  setoid_replace (0 * 1000)%Q with (inject_Z 0) by reflexivity.
  rewrite <- Zlt_Qlt. exact H.
Qed.

(** The capped timestep is positive exactly when the clock has advanced. *)
Lemma capped_elapsed_pos (d : Z) (cap : Q) :
  (0 < cap)%Q -> (0 < d)%Z ->
  exists q, min (of_Z d / Fin 1000) (Fin cap) = Fin q /\ (0 < q)%Q.
Proof.
  intros Hcap Hd. cbn. eexists. split; [reflexivity|].
  pose proof (elapsed_pos d Hd).
  destruct (Qminb_cases (inject_Z d / 1000) cap) as [[? ->]|[? ->]]; lra.
Qed.

Lemma capped_elapsed_finite (d : Z) (cap : Q) :
  is_finite (min (of_Z d / Fin 1000) (Fin cap)) = true.
Proof. reflexivity. Qed.


Section EnhancedTimestep.
Import Enhanced.

(** C4, counterexample.  A timestep argument of [NaN] is not finite, yet it
    is not replaced by [0.001]: [NaN <= 0] is false, the method goes on with
    [NaN], and both the accumulator and the returned output become [NaN],
    while the call with [0.001] returns [0.02]. *)
Lemma calculate_nan_timestep_kept :
  let c := constructor 0 0 None None None in
  is_finite NaN = false
  /\ effectiveDeltaTime c 0 (Some NaN) = NaN
  /\ snd (calculate c 0 0 (Fin 1) (Fin 0) (Some NaN)) = NaN
  /\ integral (fst (calculate c 0 0 (Fin 1) (Fin 0) (Some NaN))) = NaN
  /\ num_eq (snd (calculate c 0 0 (Fin 1) (Fin 0) (Some (Fin 0.001)))) (Fin 0.02)
  /\ calculate c 0 0 (Fin 1) (Fin 0) (Some NaN)
     <> calculate c 0 0 (Fin 1) (Fin 0) (Some (Fin 0.001)).
Proof.
  cbv zeta. repeat split; try reflexivity.
  intro H. apply (f_equal snd) in H. vm_compute in H. discriminate H.
Qed.

(** C4, as amended.  [calculate] is a total function (it has no error
    result), and whenever the timestep argument satisfies [deltaTime <= 0]
    (which includes [-Infinity]), or is omitted while the clock has not
    advanced past [lastTime], the timestep in force is [0.001] and the call
    behaves exactly as the call with [0.001]. *)
Theorem calculate_degenerate_timestep c currentTime stamp sp cv dt :
  match dt with
  | Some d => (d <=? Fin 0) = true
  | None => (currentTime <= lastTime c)%Z
  end ->
  effectiveDeltaTime c currentTime dt = Fin 0.001
  /\ calculate c currentTime stamp sp cv dt
     = calculate c currentTime stamp sp cv (Some (Fin 0.001)).
Proof.
  intro H.
  assert (E : effectiveDeltaTime c currentTime dt = Fin 0.001).
  { unfold effectiveDeltaTime. destruct dt as [d|].
    - now rewrite H.
    - cbn. replace (Qleb _ _) with true; [reflexivity|].
      symmetry. apply Qleb_true.
      unfold Qdiv. setoid_replace 0%Q with (0 * / 1000)%Q by reflexivity.
      apply Qmult_le_compat_r; [|discriminate].
      change 0%Q with (inject_Z 0). rewrite <- Zle_Qle. lia. }
  split; [exact E|].
  unfold calculate. rewrite E. reflexivity.
Qed.
End EnhancedTimestep.

(** ** The physics step *)

(** Runs [update] symbolically: the assignments are carried out one after
    the other, each on the record the previous one left, and the arithmetic
    is kept as written. *)
Ltac robot0_eval :=
  cbv beta iota zeta delta
  [    Robot0.mass Robot0.length Robot0.gravity Robot0.friction Robot0.angle
    Robot0.angularVelocity Robot0.angularAcceleration Robot0.position
    Robot0.velocity Robot0.baseX Robot0.baseY Robot0.torque
    Robot0.disturbanceForce Robot0.disturbanceDecay Robot0.lastTime
    Robot0.groundOffset Robot0.groundSpeed Robot0.trail
    Robot0.maxTrailLength Robot0.set_angle Robot0.set_angularVelocity
    Robot0.set_angularAcceleration Robot0.set_position Robot0.set_velocity
    Robot0.set_torque Robot0.set_disturbanceForce Robot0.set_lastTime
    Robot0.set_groundOffset Robot0.set_groundSpeed Robot0.set_trail
    Robot0.update Robot0.x Robot0.y Robot0.time].

Ltac robot1_eval :=
  cbv beta iota zeta delta
  [    Robot1.pidController Robot1.mass Robot1.length Robot1.gravity
    Robot1.friction Robot1.angle Robot1.angularVelocity
    Robot1.angularAcceleration Robot1.position Robot1.velocity Robot1.baseX
    Robot1.baseY Robot1.torque Robot1.disturbanceForce
    Robot1.disturbanceDecay Robot1.lastTime Robot1.groundOffset
    Robot1.groundSpeed Robot1.trail Robot1.maxTrailLength Robot1.set_angle
    Robot1.set_angularVelocity Robot1.set_angularAcceleration
    Robot1.set_position Robot1.set_velocity Robot1.set_torque
    Robot1.set_disturbanceForce Robot1.set_lastTime Robot1.set_groundOffset
    Robot1.set_groundSpeed Robot1.set_trail Robot1.set_pidController
    Robot1.update Robot1.x Robot1.y Robot1.time].

Section R0.
Import Robot0.
Variable Math_sin : num -> num.

Lemma robot0_update_noop r now :
  (deltaTime r now <=? Fin 0) = true ->
  update Math_sin r now = set_lastTime now r.
Proof. intro H. robot0_eval. rewrite H. reflexivity. Qed.

Lemma robot0_timestep_pos r now :
  (lastTime r < now)%Z ->
  exists q, deltaTime r now = Fin q /\ (0 < q)%Q.
Proof.
  intro H. unfold deltaTime. apply capped_elapsed_pos; [reflexivity | lia].
Qed.

End R0.

Section R1.
Import Robot1.
Variable Math_sin : num -> num.

Lemma robot1_update_noop r now :
  (deltaTime r now <=? Fin 0) = true ->
  update Math_sin r now = set_lastTime now r.
Proof.
  intro H. robot1_eval. rewrite H. rewrite orb_true_r. reflexivity.
Qed.

Lemma robot1_timestep_pos r now :
  (lastTime r < now)%Z ->
  exists q, deltaTime r now = Fin q /\ (0 < q)%Q.
Proof.
  intro H. unfold deltaTime. apply capped_elapsed_pos; [reflexivity | lia].
Qed.

End R1.

(** C5.  In both [BalancingRobot] classes, a call of [update] whose
    timestep is not positive or not finite changes nothing but [lastTime]:
    [angle], [angularVelocity], [angularAcceleration], [position],
    [velocity], [torque], [disturbanceForce], [trail] and every other field
    are as before, and the call returns normally.  (The timestep is computed
    from integer clock readings and capped, so it is always finite.) *)
Theorem update_noop_on_degenerate_timestep (Math_sin : num -> num) :
  (forall r now,
      (Robot0.deltaTime r now <=? Fin 0) = true
      \/ is_finite (Robot0.deltaTime r now) = false ->
      Robot0.update Math_sin r now = Robot0.set_lastTime now r)
  /\ (forall r now,
      (Robot1.deltaTime r now <=? Fin 0) = true
      \/ is_finite (Robot1.deltaTime r now) = false ->
      Robot1.update Math_sin r now = Robot1.set_lastTime now r).
Proof.
  split; intros r now [H|H].
  - now apply robot0_update_noop.
  - unfold Robot0.deltaTime in H. now rewrite capped_elapsed_finite in H.
  - now apply robot1_update_noop.
  - unfold Robot1.deltaTime in H. now rewrite capped_elapsed_finite in H.
Qed.




(** A quantity that every step multiplies by [0.95] is, after [n] steps,
    its initial value times [0.95 ^ n]. *)
Section Decay.
Variables (S : Type) (step : S -> Z -> S).
Variables (force decay : S -> num) (last : S -> Z).
Hypothesis step_decays : forall s t,
  (last s < t)%Z ->
  force (step s t) = force s * decay s
  /\ decay (step s t) = decay s /\ last (step s t) = t.

End Decay.


(** ** Reset *)

(** C8, counterexample.  In the first [BalancingRobot] class a second
    [reset] draws a new random angle: with the draws [0] and then [0.5] the
    angle after two resets is [0], after one it is [-0.1]. *)
Lemma robot0_reset_twice_differs :
  let r := Robot0.constructor (Fin 800) (Fin 600) 0 in
  ~ num_eq (Robot0.angle (Robot0.reset (Robot0.reset r (Fin 0) 0) (Fin 0.5) 0))
           (Robot0.angle (Robot0.reset r (Fin 0) 0)).
Proof. vm_compute. intro H. discriminate H. Qed.

(** C8, as amended.  What [reset] leaves depends on the state before only
    through the fields it does not write: a [reset] that follows another
    gives the state a single [reset] would give with the same clock reading
    (and, in the first [BalancingRobot] class, the same random draw).  So
    two resets in a row agree with one in every field but [lastTime], the
    [lastTime] of the controller held by the second [BalancingRobot] class,
    and, in the first class, the freshly drawn [angle]. *)
Theorem reset_absorbs_previous_reset :
  (forall r random1 now1 random2 now2,
      Robot0.reset (Robot0.reset r random1 now1) random2 now2
      = Robot0.reset r random2 now2
      /\ Robot0.reset (Robot0.reset r random1 now1) random2 now2
         = Robot0.set_lastTime now2
             (Robot0.set_angle (random2 * Fin 0.2 - Fin 0.1)
                (Robot0.reset r random1 now1)))
  /\ (forall r now1 pidNow1 now2 pidNow2,
      Robot1.reset (Robot1.reset r now1 pidNow1) now2 pidNow2
      = Robot1.reset r now2 pidNow2
      /\ Robot1.reset (Robot1.reset r now1 pidNow1) now2 pidNow2
         = let once := Robot1.reset r now1 pidNow1 in
           Robot1.set_pidController
             (Enhanced.set_lastTime pidNow2 (Robot1.pidController once))
             (Robot1.set_lastTime now2 once))
  /\ (forall c now1 now2,
      Enhanced.reset (Enhanced.reset c now1) now2 = Enhanced.reset c now2
      /\ Enhanced.reset (Enhanced.reset c now1) now2
         = Enhanced.set_lastTime now2 (Enhanced.reset c now1))
  /\ (forall c now1 now2,
      Basic.reset (Basic.reset c now1) now2 = Basic.reset c now2
      /\ Basic.reset (Basic.reset c now1) now2
         = Basic.set_lastTime now2 (Basic.reset c now1)).
Proof.
  split; [|split; [|split]].
  - intros r ? ? ? ?. destruct r. split; vm_compute; reflexivity.
  - intros r ? ? ? ?. destruct r as [c]. destruct c.
    split; vm_compute; reflexivity.
  - intros c ? ?. destruct c. split; vm_compute; reflexivity.
  - intros c ? ?. destruct c. split; vm_compute; reflexivity.
Qed.

(** ** The histories *)

Lemma tl_app_nonempty {A} (l : list A) (x : A) :
  l <> [] -> tl (l ++ [x]) = tl l ++ [x].
Proof. destruct l; [congruence | reflexivity]. Qed.

Lemma length_tl {A} (l : list A) : length (tl l) = pred (length l).
Proof. destruct l; reflexivity. Qed.

Section EnhancedHistory.
Import Enhanced EnhancedCalls EnhancedForm.

Lemma storeHistory_history_inv c s e o k :
  history_inv c -> history_inv (storeHistory c s e o k).
Proof.
  unfold history_inv, storeHistory. intros (Hl & Hm & Hc). cbn.
  destruct (_ >? _)%Z eqn:E; cbn;
    rewrite ?length_tl, ?length_app in *; cbn [length] in *.
  - repeat split; try lia.
  - rewrite Z.gtb_ltb in E. apply Z.ltb_ge in E. repeat split; try lia.
Qed.

Lemma calculate_histories c t s sp cv dt :
  exists k,
    errorHistory (fst (calculate c t s sp cv dt))
    = errorHistory (storeHistory c s (sp - cv) (snd (calculate c t s sp cv dt)) k)
    /\ outputHistory (fst (calculate c t s sp cv dt))
       = outputHistory (storeHistory c s (sp - cv) (snd (calculate c t s sp cv dt)) k)
    /\ maxHistoryLength (fst (calculate c t s sp cv dt)) = maxHistoryLength c.
Proof.
  unfold calculate. set (q := effectiveDeltaTime c t dt). clearbody q.
  destruct (q >? Fin 0); cbn; eexists; unfold storeHistory; cbn;
    destruct (_ >? _)%Z; cbn; repeat split; reflexivity.
Qed.

Lemma calculate_history_inv c t s sp cv dt :
  history_inv c -> history_inv (fst (calculate c t s sp cv dt)).
Proof.
  intro H. destruct (calculate_histories c t s sp cv dt) as (k & E1 & E2 & E3).
  pose proof (storeHistory_history_inv c s (sp - cv)
                (snd (calculate c t s sp cv dt)) k H) as (H1 & H2 & H3).
  unfold history_inv. rewrite E1, E2, E3. destruct H as (_ & _ & ->). auto.
Qed.

Lemma enhanced_call_history_inv c k : history_inv c -> history_inv (call c k).
Proof.
  intro H.
  destruct k as [t s sp cv dt | t s cv | s e o comps | ? ? ? | ? ? ? | now];
    cbn [call].
  - now apply calculate_history_inv.
  - now apply calculate_history_inv.
  - now apply storeHistory_history_inv.
  - exact H.
  - exact H.
  - destruct H as (_ & _ & H). unfold history_inv. cbn. repeat split; auto. lia.
Qed.

Lemma enhanced_run_history_inv calls : forall c,
  history_inv c -> history_inv (run c calls).
Proof.
  induction calls as [|k calls IH]; intros c H; cbn; auto.
  apply IH. now apply enhanced_call_history_inv.
Qed.

Lemma storeHistory_evicts c s e o k :
  history_inv c -> length (errorHistory c) = 1000%nat ->
  errorHistory (storeHistory c s e o k) = tl (errorHistory c) ++ [e]
  /\ outputHistory (storeHistory c s e o k)
     = tl (outputHistory c) ++ [mkOutputEntry o s k].
Proof.
  intros (Hl & _ & Hm) Hfull. unfold storeHistory. cbn.
  rewrite length_app, Hfull, Hm. cbn.
  split; apply tl_app_nonempty; intro E.
  - rewrite E in Hfull. discriminate.
  - rewrite E in Hl. rewrite Hfull in Hl. discriminate.
Qed.

Lemma storeHistory_appends c s e o k :
  history_inv c -> (length (errorHistory c) < 1000)%nat ->
  errorHistory (storeHistory c s e o k) = errorHistory c ++ [e]
  /\ outputHistory (storeHistory c s e o k)
     = outputHistory c ++ [mkOutputEntry o s k].
Proof.
  intros (Hl & _ & Hm) Hlt. unfold storeHistory. cbn.
  rewrite length_app, Hm. cbn [length].
  replace (_ >? _)%Z with false; [split; reflexivity|].
  symmetry. rewrite Z.gtb_ltb. apply Z.ltb_ge. lia.
Qed.
End EnhancedHistory.

Section BasicHistory.
Import Basic BasicCalls.

(** [update] with the clock not advanced changes nothing and returns [0]. *)
Lemma basic_update_stalled c t cv :
  (t <= lastTime c)%Z -> update c t cv = (c, RNumber (Fin 0)).
Proof.
  intro H. unfold update. cbn.
  rewrite elapsed_nonpos by lia. reflexivity.
Qed.

Lemma basic_update_histories c t cv :
  (lastTime c < t)%Z ->
  exists o,
    snd (update c t cv) = RObject o
    /\ error o = setpoint c - cv
    /\ errorHistory (fst (update c t cv))
       = (if (Z.of_nat (length (errorHistory c ++ [error o])) >? maxHistoryLength c)%Z
          then tl (errorHistory c ++ [error o])
          else errorHistory c ++ [error o])
    /\ outputHistory (fst (update c t cv))
       = (if (Z.of_nat (length (errorHistory c ++ [error o])) >? maxHistoryLength c)%Z
          then tl (outputHistory c ++ [output o])
          else outputHistory c ++ [output o])
    /\ maxHistoryLength (fst (update c t cv)) = maxHistoryLength c.
Proof.
  intro H. unfold update. cbn.
  replace (Qleb _ 0) with false
    by (symmetry; apply Qleb_false; apply elapsed_pos; lia).
  cbn. eexists. split; [reflexivity|].
  cbn [error output]. destruct (_ >? _)%Z; cbn; repeat split; reflexivity.
Qed.

Lemma basic_update_history_inv c t cv :
  basic_history_inv c -> basic_history_inv (fst (update c t cv)).
Proof.
  intros (Hl & Hn & Hm).
  destruct (Z_lt_le_dec (lastTime c) t) as [H|H].
  - destruct (basic_update_histories c t cv H) as (o & _ & _ & E1 & E2 & E3).
    unfold basic_history_inv. rewrite E1, E2, E3. rewrite Hm in *.
    clear E1 E2 E3.
    destruct (_ >? _)%Z eqn:E;
      rewrite ?length_tl, ?length_app in *; cbn [length] in *.
    + repeat split; lia.
    + rewrite Z.gtb_ltb in E. apply Z.ltb_ge in E. repeat split; lia.
  - rewrite basic_update_stalled by exact H. cbn. repeat split; auto.
Qed.

Lemma basic_call_history_inv c k :
  basic_history_inv c -> basic_history_inv (call c k).
Proof.
  intro H. destruct k as [t cv | ? ? ? | sp | now]; cbn [call].
  - now apply basic_update_history_inv.
  - exact H.
  - exact H.
  - destruct H as (_ & _ & H). unfold basic_history_inv. cbn.
    repeat split; auto. lia.
Qed.

Lemma basic_run_history_inv calls : forall c,
  basic_history_inv c -> basic_history_inv (run c calls).
Proof.
  induction calls as [|k calls IH]; intros c H; cbn; auto.
  apply IH. now apply basic_call_history_inv.
Qed.

Lemma basic_update_evicts c t cv :
  basic_history_inv c -> length (errorHistory c) = 1000%nat ->
  (lastTime c < t)%Z ->
  exists o,
    snd (update c t cv) = RObject o
    /\ errorHistory (fst (update c t cv)) = tl (errorHistory c) ++ [setpoint c - cv]
    /\ outputHistory (fst (update c t cv)) = tl (outputHistory c) ++ [output o].
Proof.
  intros (Hl & _ & Hm) Hfull Ht.
  destruct (basic_update_histories c t cv Ht) as (o & E0 & Ee & E1 & E2 & _).
  exists o. rewrite E1, E2, Ee, length_app, Hfull, Hm. cbn.
  repeat split; auto; apply tl_app_nonempty; intro E.
  - rewrite E in Hfull. discriminate.
  - rewrite E in Hl. rewrite Hfull in Hl. discriminate.
Qed.
End BasicHistory.

(** C10.  Along every sequence of calls on a constructed controller of
    either class, [errorHistory] and [outputHistory] have the same length,
    which never exceeds the capacity [1000]; and at capacity an append drops
    the oldest entry of both and puts the new one last. *)
Theorem histories_bounded_ring_buffers :
  (forall now1 now2 kp ki kd calls,
      let c := EnhancedCalls.run (Enhanced.constructor now1 now2 kp ki kd) calls in
      length (Enhanced.errorHistory c) = length (Enhanced.outputHistory c)
      /\ (length (Enhanced.errorHistory c) <= 1000)%nat)
  /\ (forall now kp ki kd calls,
      let c := BasicCalls.run (Basic.constructor now kp ki kd) calls in
      length (Basic.errorHistory c) = length (Basic.outputHistory c)
      /\ (length (Basic.errorHistory c) <= 1000)%nat)
  /\ (forall now1 now2 kp ki kd calls stamp error output components,
      let c := EnhancedCalls.run (Enhanced.constructor now1 now2 kp ki kd) calls in
      length (Enhanced.errorHistory c) = 1000%nat ->
      let c' := Enhanced.storeHistory c stamp error output components in
      Enhanced.errorHistory c' = tl (Enhanced.errorHistory c) ++ [error]
      /\ Enhanced.outputHistory c'
         = tl (Enhanced.outputHistory c)
           ++ [Enhanced.mkOutputEntry output stamp components])
  /\ (forall now kp ki kd calls currentTime currentValue,
      let c := BasicCalls.run (Basic.constructor now kp ki kd) calls in
      length (Basic.errorHistory c) = 1000%nat ->
      (Basic.lastTime c < currentTime)%Z ->
      exists o,
        snd (Basic.update c currentTime currentValue) = Basic.RObject o
        /\ Basic.errorHistory (fst (Basic.update c currentTime currentValue))
           = tl (Basic.errorHistory c) ++ [Basic.setpoint c - currentValue]
        /\ Basic.outputHistory (fst (Basic.update c currentTime currentValue))
           = tl (Basic.outputHistory c) ++ [Basic.output o]).
Proof.
  assert (HE : forall now1 now2 kp ki kd calls,
             history_inv (EnhancedCalls.run (Enhanced.constructor now1 now2 kp ki kd) calls)).
  { intros. apply enhanced_run_history_inv. unfold history_inv. cbn.
    repeat split; auto. lia. }
  assert (HB : forall now kp ki kd calls,
             basic_history_inv (BasicCalls.run (Basic.constructor now kp ki kd) calls)).
  { intros. apply basic_run_history_inv. unfold basic_history_inv. cbn.
    repeat split; auto. lia. }
  split; [|split; [|split]].
  - intros. destruct (HE now1 now2 kp ki kd calls) as (? & ? & _). auto.
  - intros. destruct (HB now kp ki kd calls) as (? & ? & _). auto.
  - intros. apply storeHistory_evicts; [apply HE | assumption].
  - intros. apply basic_update_evicts; auto. apply HB.
Qed.

(** ** The angle after a physics step *)

Lemma finite_div a b : is_finite a = true -> is_nonzero b = true -> is_finite (a / b) = true.
Proof.
  destruct a, b; try discriminate; intros _ H. cbn in *.
  destruct (q0 ?= 0)%Q eqn:E; try reflexivity.
  apply Qeq_alt in E. apply Qeq_bool_iff in E. rewrite E in H. discriminate.
Qed.
Lemma nonzero_mul a b : is_nonzero a = true -> is_nonzero b = true -> is_nonzero (a * b) = true.
Proof.
  destruct a, b; try discriminate; cbn. intros Ha Hb.
  apply negb_true_iff in Ha, Hb. apply negb_true_iff.
  destruct (Qeq_bool (q * q0) 0) eqn:E; [|reflexivity].
  apply Qeq_bool_iff in E. apply Qmult_integral in E.
  destruct E as [E|E]; apply Qeq_bool_iff in E; congruence.
Qed.


Section Angle0.
Import Robot0.
Variable Math_sin : num -> num.
Hypothesis sin_finite : forall q, is_finite (Math_sin (Fin q)) = true.



End Angle0.

Section Angle1.
Import Robot1.
Variable Math_sin : num -> num.
Hypothesis sin_finite : forall q, is_finite (Math_sin (Fin q)) = true.



End Angle1.


(** ** Auto-tune with no error *)

Lemma Qmult_neg_cases (a b : Q) :
  (a * b < 0 -> (a < 0 /\ 0 < b) \/ (0 < a /\ b < 0))%Q.
Proof.
  intro H.
  destruct (Q_dec a 0) as [[Ha|Ha]|Ha]; destruct (Q_dec b 0) as [[Hb|Hb]|Hb];
    auto; exfalso.
  - assert (0 < (- a) * (- b))%Q by (apply Qmult_lt_0_compat; lra).
    assert ((- a) * (- b) == a * b)%Q by ring. lra.
  - rewrite Hb in H. assert (a * 0 == 0)%Q by ring. lra.
  - assert (0 < a * b)%Q by (apply Qmult_lt_0_compat; lra). lra.
  - rewrite Hb in H. assert (a * 0 == 0)%Q by ring. lra.
  - rewrite Ha in H. assert (0 * b == 0)%Q by ring. lra.
  - rewrite Ha in H. assert (0 * b == 0)%Q by ring. lra.
  - rewrite Ha in H. assert (0 * b == 0)%Q by ring. lra.
Qed.

Local Open Scope Q_scope.

Local Open Scope Q_scope.

Lemma phase_inv_bound A B L k : phase_inv A B L k -> (k <= 2)%nat.
Proof. destruct 1; lia. Qed.

Lemma phase_inv_start A B L : phase_inv A B L 0.
Proof.
  destruct (Qlt_le_dec B 0); destruct (Qlt_le_dec L (A + B)).
  - apply inc_rising; try lra; intros; lia.
  - apply inc_falling; try lra; intros; lia.
  - apply dec_rising; try lra; intros; lia.
  - apply dec_falling; try lra; intros; lia.
Qed.

Ltac count_goal :=
  intros; try (exfalso; lra);
  repeat match goal with
  | H : ?P -> _ |- _ =>
      match type of P with
      | Prop => let HP := fresh in assert (HP : P) by lra; specialize (H HP)
      end
  end; lia.

Lemma phase_inv_step A B L k A' B' L' k' raw :
  phase_inv A B L k ->
  A' == A ->
  (0 <= B -> 0 <= B' <= B) -> (B <= 0 -> B <= B' <= 0) ->
  raw == A' + B' ->
  (L <= raw -> L <= L' <= raw) -> (raw <= L -> raw <= L' <= L) ->
  (k' = k \/ (k' = Datatypes.S k /\ ((L < 0 /\ 0 < L') \/ (0 < L /\ L' < 0)))) ->
  phase_inv A' B' L' k'.
Proof.
  intros HI HA HB1 HB2 Hraw HL1 HL2 Hk.
  destruct HI as [b1 b2 b3 b4|b1 b2 b3 b4|b1 b2 b3 b4|b1 b2 b3 b4].
  - specialize (HB1 b1). destruct (Qlt_le_dec raw L) as [c|c].
    + specialize (HL2 ltac:(lra)). apply dec_falling; try lra.
      * destruct Hk as [->|[-> [[? ?]|[? ?]]]]; count_goal.
      * destruct Hk as [->|[-> [[? ?]|[? ?]]]]; count_goal.
    + specialize (HL1 c). apply dec_rising; try lra.
      * destruct Hk as [->|[-> [[? ?]|[? ?]]]]; count_goal.
      * destruct Hk as [->|[-> [[? ?]|[? ?]]]]; count_goal.
  - specialize (HB1 b1). specialize (HL2 ltac:(lra)). apply dec_falling; try lra.
    + destruct Hk as [->|[-> [[? ?]|[? ?]]]]; count_goal.
    + destruct Hk as [->|[-> [[? ?]|[? ?]]]]; count_goal.
  - specialize (HB2 b1). destruct (Qlt_le_dec L raw) as [c|c].
    + specialize (HL1 ltac:(lra)). apply inc_rising; try lra.
      * destruct Hk as [->|[-> [[? ?]|[? ?]]]]; count_goal.
      * destruct Hk as [->|[-> [[? ?]|[? ?]]]]; count_goal.
    + specialize (HL2 c). apply inc_falling; try lra.
      * destruct Hk as [->|[-> [[? ?]|[? ?]]]]; count_goal.
      * destruct Hk as [->|[-> [[? ?]|[? ?]]]]; count_goal.
  - specialize (HB2 b1). specialize (HL1 ltac:(lra)). apply inc_rising; try lra.
    + destruct Hk as [->|[-> [[? ?]|[? ?]]]]; count_goal.
    + destruct Hk as [->|[-> [[? ?]|[? ?]]]]; count_goal.
Qed.

Lemma Qclamp_id (lo hi y : Q) : lo <= y <= hi -> Qclamp lo hi y == y.
Proof.
  intro H. unfold Qclamp.
  destruct (Qminb_cases hi y) as [[? ->]|[? ->]];
  destruct (Qmaxb_cases lo y) as [[? E]|[? E]];
  destruct (Qmaxb_cases lo hi) as [[? E']|[? E']]; rewrite ?E, ?E'; lra.
Qed.

Lemma le_to_Q a b :
  is_finite a = true -> is_finite b = true -> (a <=? b)%num = true ->
  to_Q a <= to_Q b.
Proof.
  destruct a, b; try discriminate. intros _ _ H. now apply Qleb_true.
Qed.

Lemma Fin_to_Q a : is_finite a = true -> a = Fin (to_Q a).
Proof. destruct a; try discriminate; reflexivity. Qed.

Section Tune.
Import Enhanced EnhancedCalls EnhancedForm.

Lemma finite_controller_iff c :
  finite_controller c = true <->
  (is_finite (kp c) = true /\ is_finite (ki c) = true /\ is_finite (kd c) = true
   /\ is_finite (setpoint c) = true /\ is_finite (previousError c) = true
   /\ is_finite (integral c) = true /\ is_finite (lastOutput c) = true
   /\ is_finite (integralMax c) = true /\ is_finite (integralMin c) = true
   /\ is_finite (outputMax c) = true /\ is_finite (outputMin c) = true
   /\ is_finite (alpha c) = true /\ is_finite (filteredDerivative c) = true
   /\ is_finite (maxRate c) = true).
Proof. unfold finite_controller. rewrite !andb_true_iff. tauto. Qed.

Lemma well_configured_Q c :
  finite_controller c = true -> well_configured c = true ->
  to_Q (integralMin c) <= to_Q (integralMax c)
  /\ to_Q (outputMin c) <= to_Q (outputMax c)
  /\ 0 <= to_Q (alpha c) <= 1 /\ 0 <= to_Q (maxRate c).
Proof.
  intros Hf Hw. apply finite_controller_iff in Hf.
  unfold well_configured, between in Hw. rewrite !andb_true_iff in Hw.
  decompose [and] Hf. decompose [and] Hw.
  repeat split; try (apply le_to_Q; auto);
    try (apply (le_to_Q (Fin 0)); auto);
    try (apply (le_to_Q _ (Fin 1)); auto).
Qed.

Lemma calculate_keeps_config c t s sp cv dt q :
  finite_controller c = true -> is_finite sp = true -> is_finite cv = true ->
  effectiveDeltaTime c t dt = Fin q -> (0 < q)%Q ->
  well_configured c = true ->
  finite_controller (fst (calculate c t s sp cv dt)) = true
  /\ well_configured (fst (calculate c t s sp cv dt)) = true.
Proof.
  intros Hc Hsp Hcv Hdt Hq Hw.
  destruct (calculate_finite c t s sp cv dt q Hc Hsp Hcv Hdt Hq)
    as (_ & E1 & E2 & E3 & E4 & E5 & S1 & S2 & S3 & S4 & S5 & S6 & S7 & S8 & S9 & _).
  split.
  - apply finite_controller_iff in Hc. apply finite_controller_iff.
    rewrite E1, E2, E3, E4, E5, S1, S2, S3, S4, S5, S6, S7, S8, S9.
    cbn [is_finite]. tauto.
  - unfold well_configured in *. rewrite S4, S5, S6, S7, S8, S9. exact Hw.
Qed.

Lemma tune_timestep c t : effectiveDeltaTime c t (Some (Fin 0.02)) = Fin 0.02.
Proof. reflexivity. Qed.

Lemma tune_first c t s x :
  finite_controller c = true -> well_configured c = true ->
  is_finite x = true ->
  tune_running (fst (calculate c t s x x (Some (Fin 0.02)))) 0
    (snd (calculate c t s x x (Some (Fin 0.02)))).
Proof.
  intros Hc Hw Hx.
  assert (Hq : 0 < 0.02) by reflexivity.
  destruct (calculate_keeps_config c t s x x _ _ Hc Hx Hx (tune_timestep c t) Hq Hw)
    as (Hc' & Hw').
  destruct (calculate_finite c t s x x _ _ Hc Hx Hx (tune_timestep c t) Hq)
    as (E0 & E1 & E2 & E3 & E4 & E5 & S1 & S2 & S3 & S4 & S5 & S6 & S7 & S8 & S9 & _).
  destruct (well_configured_Q c Hc Hw) as (W1 & W2 & W3 & W4).
  unfold tune_running. rewrite E0, E1, E2, E3, E4, S2, S3, S4, S5, S6, S7.
  cbn [to_Q].
  repeat split; auto.
  - unfold errorQ. ring.
  - apply Qclamp_between; exact W1.
  - apply Qclamp_between; exact W1.
  - apply Qclamp_between; exact W2.
  - apply Qclamp_between; exact W2.
  - apply phase_inv_start.
Qed.

Lemma tune_step c k t s x k' :
  tune_running c k (lastOutput c) -> is_finite x = true ->
  (k' = k
   \/ (k' = Datatypes.S k
       /\ (lastOutput c * snd (calculate c t s x x (Some (Fin 0.02)))
           <? Fin 0)%num = true)) ->
  tune_running (fst (calculate c t s x x (Some (Fin 0.02)))) k'
    (snd (calculate c t s x x (Some (Fin 0.02)))).
Proof.
  intros (Hc & Hw & _ & Hpe & HI & HL & Hph) Hx Hk.
  assert (Hq : 0 < 0.02) by reflexivity.
  destruct (calculate_keeps_config c t s x x _ _ Hc Hx Hx (tune_timestep c t) Hq Hw)
    as (Hc' & Hw').
  destruct (calculate_finite c t s x x _ _ Hc Hx Hx (tune_timestep c t) Hq)
    as (E0 & E1 & E2 & E3 & E4 & E5 & S1 & S2 & S3 & S4 & S5 & S6 & S7 & S8 & S9 & _).
  destruct (well_configured_Q c Hc Hw) as (W1 & W2 & W3 & W4).
  rewrite E0 in Hk |- *.
  unfold tune_running. rewrite E1, E2, E3, E4, S2, S3, S4, S5, S6, S7.
  cbn [to_Q].
  assert (He : errorQ x x == 0) by (unfold errorQ; ring).
  assert (EI : integralQ c x x 0.02 == to_Q (integral c)).
  { unfold integralQ. rewrite Qclamp_id; rewrite He; lra. }
  assert (ED : derivativeQ c x x 0.02
               == (1 - to_Q (alpha c)) * to_Q (filteredDerivative c)).
  { unfold derivativeQ. rewrite He, Hpe. unfold Qdiv. ring. }
  assert (ER : rawQ c x x 0.02
               == to_Q (ki c) * integralQ c x x 0.02
                  + to_Q (kd c) * derivativeQ c x x 0.02).
  { unfold rawQ. rewrite He. ring. }
  set (B := to_Q (kd c) * to_Q (filteredDerivative c)) in *.
  assert (EB : to_Q (kd c) * derivativeQ c x x 0.02 == B - to_Q (alpha c) * B).
  { rewrite ED. unfold B. ring. }
  assert (HB1 : 0 <= B -> 0 <= to_Q (alpha c) * B <= B).
  { intro. split; [apply Qmult_le_0_compat; lra|].
    setoid_replace B with (1 * B) at 2 by ring.
    apply Qmult_le_compat_r; lra. }
  assert (HB2 : B <= 0 -> B <= to_Q (alpha c) * B <= 0).
  { intro. assert (0 <= to_Q (alpha c) * (- B) <= - B).
    { split; [apply Qmult_le_0_compat; lra|].
      setoid_replace (- B) with (1 * (- B)) at 2 by ring.
      apply Qmult_le_compat_r; lra. }
    assert (to_Q (alpha c) * (- B) == - (to_Q (alpha c) * B)) by ring. lra. }
  set (p := to_Q (alpha c) * B) in *. clearbody p.
  assert (Hm : 0 <= to_Q (maxRate c) * 0.02)
    by (apply Qmult_le_0_compat; lra).
  set (m := to_Q (maxRate c) * 0.02) in *.
  set (L := to_Q (lastOutput c)) in *.
  set (raw := rawQ c x x 0.02) in *.
  assert (HO : L <= raw -> L <= outputQ c x x 0.02 <= raw).
  { intro. unfold outputQ. fold L m raw.
    destruct (Qclamp_towards (L - m) (L + m) raw L ltac:(lra)) as [_ T].
    specialize (T H).
    destruct (Qclamp_towards (to_Q (outputMin c)) (to_Q (outputMax c))
                (Qclamp (L - m) (L + m) raw) L HL) as [_ T'].
    specialize (T' ltac:(lra)). lra. }
  assert (HO' : raw <= L -> raw <= outputQ c x x 0.02 <= L).
  { intro. unfold outputQ. fold L m raw.
    destruct (Qclamp_towards (L - m) (L + m) raw L ltac:(lra)) as [T _].
    specialize (T H).
    destruct (Qclamp_towards (to_Q (outputMin c)) (to_Q (outputMax c))
                (Qclamp (L - m) (L + m) raw) L HL) as [T' _].
    specialize (T' ltac:(lra)). lra. }
  assert (HOb : to_Q (outputMin c) <= outputQ c x x 0.02 <= to_Q (outputMax c))
    by (apply Qclamp_between; exact W2).
  repeat split; auto; try lra.
  apply phase_inv_step
    with (A := to_Q (ki c) * to_Q (integral c)) (B := B) (L := L) (k := k)
         (raw := raw); auto.
    + rewrite EI. reflexivity.
    + intro. rewrite EB. specialize (HB1 H). lra.
    + intro. rewrite EB. specialize (HB2 H). lra.
    + destruct Hk as [Hk|[Hk Hx']]; [left; exact Hk | right; split; [exact Hk|]].
      rewrite (Fin_to_Q (lastOutput c)) in Hx'
        by (apply finite_controller_iff in Hc; tauto).
      cbn [mul lt] in Hx'. apply Qltb_true in Hx'. fold L in Hx'.
      exact (Qmult_neg_cases _ _ Hx').
Qed.

Lemma tune_inv_step c k lastOut t s x :
  tune_inv c k lastOut -> is_finite x = true ->
  let c1 := fst (calculate c t s x x (Some (Fin 0.02))) in
  let out := snd (calculate c t s x x (Some (Fin 0.02))) in
  ((lastOut * out <? Fin 0)%num = false -> tune_running c1 k out)
  /\ ((lastOut * out <? Fin 0)%num = true ->
      tune_running c1 (Datatypes.S k) out /\ tune_running c1 k out)
  /\ kp c1 = kp c /\ ki c1 = ki c /\ kd c1 = kd c.
Proof.
  intros [(-> & -> & Hc & Hw)|Hr] Hx; cbv zeta.
  - assert (Hq : 0 < 0.02) by reflexivity.
    destruct (calculate_finite c t s x x _ _ Hc Hx Hx (tune_timestep c t) Hq)
      as (E0 & _ & _ & _ & _ & _ & S1 & S2 & S3 & _).
    pose proof (tune_first c t s x Hc Hw Hx) as H1.
    split; [intros _; exact H1|]. split; [|auto].
    intro X. exfalso. rewrite E0 in X.
    cbn [mul lt] in X. apply Qltb_true in X.
    assert (0 * outputQ c x x 0.02 == 0) by ring. lra.
  - assert (Hl : lastOutput c = lastOut) by (destruct Hr as (_ & _ & H & _); exact H).
    subst lastOut.
    assert (Hc : finite_controller c = true) by (destruct Hr; assumption).
    assert (Hq : 0 < 0.02) by reflexivity.
    destruct (calculate_finite c t s x x _ _ Hc Hx Hx (tune_timestep c t) Hq)
      as (_ & _ & _ & _ & _ & _ & S1 & S2 & S3 & _).
    split; [|split; [|auto]].
    + intros _. exact (tune_step c k t s x k Hr Hx (or_introl eq_refl)).
    + intro X. split.
      * exact (tune_step c k t s x _ Hr Hx (or_intror (conj eq_refl X))).
      * exact (tune_step c k t s x k Hr Hx (or_introl eq_refl)).
Qed.

Lemma autoTune_loop_peaks clock x cycles_ remaining :
  forall i c peaks lastOut lastCrossing,
  tune_inv c (length peaks) lastOut -> is_finite x = true ->
  let res :=
    autoTune_loop clock x x cycles_ remaining i c peaks lastOut lastCrossing in
  (length (snd res) <= 2)%nat
  /\ kp (fst res) = kp c /\ ki (fst res) = ki c /\ kd (fst res) = kd c.
Proof.
  induction remaining as [|n IH]; intros i c peaks lastOut lastCrossing Hinv Hx.
  - cbn. repeat split; auto.
    destruct Hinv as [(-> & _)|(_ & _ & _ & _ & _ & _ & H)]; [lia|].
    exact (phase_inv_bound _ _ _ _ H).
  - cbn [autoTune_loop].
    pose proof (tune_inv_step c (length peaks) lastOut (fst (clock i))
                  (snd (clock i)) x Hinv Hx) as (H0 & H1 & G1 & G2 & G3).
    destruct (calculate c (fst (clock i)) (snd (clock i)) x x (Some (Fin 0.02)))
      as [c1 out]. cbn [fst snd] in *.
    rewrite <- G1, <- G2, <- G3.
    assert (Hb : forall c' k, tune_running c' k out -> (k <= 2)%nat).
    { intros c' k (_ & _ & _ & _ & _ & _ & H). exact (phase_inv_bound _ _ _ _ H). }
    destruct (lastOut * out <? Fin 0)%num.
    + destruct (H1 eq_refl) as [Hs Hk].
      destruct (_ >? Fin 0.1)%num.
      * destruct (_ >=? _)%num.
        -- cbn [fst snd]. repeat split; auto.
           rewrite length_app. cbn [length]. 
           replace (length peaks + 1)%nat with (Datatypes.S (length peaks)) by lia.
           exact (Hb _ _ Hs).
        -- apply IH; auto. right. rewrite length_app. cbn [length].
           replace (length peaks + 1)%nat with (Datatypes.S (length peaks)) by lia.
           exact Hs.
      * destruct (_ >=? _)%num.
        -- cbn [fst snd]. repeat split; auto. exact (Hb _ _ Hk).
        -- apply IH; auto. right. exact Hk.
    + specialize (H0 eq_refl). destruct (_ >=? _)%num.
      * cbn [fst snd]. repeat split; auto. exact (Hb _ _ H0).
      * apply IH; auto. right. exact H0.
Qed.

(** C9.  On a controller with finite fields and limits ordered as the
    constructor sets them, [autoTune] run with a setpoint equal to the
    process variable records at most two peaks, returns [success: false],
    and leaves [kp], [ki] and [kd] (and the restored accumulator, filtered
    derivative and previous error) exactly as they were. *)
Theorem autoTune_without_error_fails c clock x cycles_ :
  finite_controller c = true -> well_configured c = true ->
  is_finite x = true ->
  let c' := fst (autoTune c clock x x cycles_) in
  let result := snd (autoTune c clock x x cycles_) in
  success result = false
  /\ kp c' = kp c /\ ki c' = ki c /\ kd c' = kd c
  /\ newParams result = (kp c, ki c, kd c)
  /\ integral c' = integral c
  /\ filteredDerivative c' = filteredDerivative c
  /\ previousError c' = previousError c.
Proof.
  intros Hc Hw Hx. unfold autoTune.
  set (cy := match cycles_ with Some v => v | None => Fin 5 end).
  pose proof (autoTune_loop_peaks clock x cy 1000 0 c [] (Fin 0) 0
                (or_introl (conj eq_refl (conj eq_refl (conj Hc Hw)))) Hx)
    as (Hlen & G1 & G2 & G3).
  destruct (autoTune_loop clock x x cy 1000 0 c [] (Fin 0) 0) as [c1 peaks].
  cbn [fst snd] in *.
  replace (4 <=? length peaks)%nat with false
    by (symmetry; apply Nat.leb_gt; lia).
  cbn. rewrite G1, G2, G3. repeat split; reflexivity.
Qed.
End Tune.

Local Close Scope Q_scope.

(** ** Determinism and the clock *)

(** Runs the methods of the enhanced controller symbolically. *)
Ltac enhanced_eval :=
  cbv beta iota zeta delta
  [    Enhanced.kp Enhanced.ki Enhanced.kd Enhanced.setpoint
    Enhanced.previousError Enhanced.integral Enhanced.lastTime
    Enhanced.lastOutput Enhanced.errorHistory Enhanced.outputHistory
    Enhanced.maxHistoryLength Enhanced.integralMax Enhanced.integralMin
    Enhanced.outputMax Enhanced.outputMin Enhanced.alpha
    Enhanced.filteredDerivative Enhanced.maxRate Enhanced.lastUpdateTime
    Enhanced.set_kp Enhanced.set_ki Enhanced.set_kd Enhanced.set_setpoint
    Enhanced.set_previousError Enhanced.set_integral Enhanced.set_lastTime
    Enhanced.set_lastOutput Enhanced.set_errorHistory
    Enhanced.set_outputHistory Enhanced.set_filteredDerivative
    Enhanced.calculate Enhanced.update Enhanced.storeHistory Enhanced.reset
    Enhanced.setGains Enhanced.setParameters Enhanced.output
    Enhanced.timestamp Enhanced.components].

Lemma tl_map {A B} (f : A -> B) (l : list A) : tl (map f l) = map f (tl l).
Proof. destruct l; reflexivity. Qed.

Lemma shift_elapsed (t l d : Z) : (t + d - (l + d) = t - l)%Z.
Proof. lia. Qed.

Section EnhancedShift.
Import Enhanced.

Lemma effectiveDeltaTime_shift d c t dt :
  effectiveDeltaTime (shift_controller d c) (t + d) dt = effectiveDeltaTime c t dt.
Proof.
  unfold effectiveDeltaTime. destruct dt; [reflexivity|].
  cbn [lastTime shift_controller]. now rewrite shift_elapsed.
Qed.

Lemma calculate_shift d c t s sp cv dt :
  calculate (shift_controller d c) (t + d) (s + d) sp cv dt
  = (shift_controller d (fst (calculate c t s sp cv dt)),
     snd (calculate c t s sp cv dt)).
Proof.
  pose proof (effectiveDeltaTime_shift d c t dt) as E.
  destruct c. enhanced_eval. rewrite E. clear E.
  match goal with |- context [effectiveDeltaTime ?c ?t ?dt] =>
    generalize (effectiveDeltaTime c t dt) end. intro q.
  unfold shift_controller.
  destruct (q >? Fin 0); enhanced_eval;
    rewrite ?length_app, ?length_map;
    destruct (_ >? _)%Z; cbn [fst snd];
    rewrite <- ?tl_map, ?map_app; reflexivity.
Qed.
End EnhancedShift.

Lemma filter_shift d t limit (l : list Robot1.TrailPoint) :
  filter (fun point => (t + d - Robot1.time point <? limit)%Z)
         (map (shift_point d) l)
  = map (shift_point d)
        (filter (fun point => (t - Robot1.time point <? limit)%Z) l).
Proof.
  induction l as [|p l IH]; [reflexivity|].
  cbn [map filter]. rewrite IH. cbn [shift_point Robot1.time].
  rewrite shift_elapsed. destruct (_ <? _)%Z; reflexivity.
Qed.

Ltac robot1_eval' :=
  cbv beta iota zeta delta
  [Robot1.pidController Robot1.mass Robot1.length Robot1.gravity
   Robot1.friction Robot1.angle Robot1.angularVelocity
   Robot1.angularAcceleration Robot1.position Robot1.velocity Robot1.baseX
   Robot1.baseY Robot1.torque Robot1.disturbanceForce
   Robot1.disturbanceDecay Robot1.lastTime Robot1.groundOffset
   Robot1.groundSpeed Robot1.trail Robot1.maxTrailLength Robot1.set_angle
   Robot1.set_angularVelocity Robot1.set_angularAcceleration
   Robot1.set_position Robot1.set_velocity Robot1.set_torque
   Robot1.set_disturbanceForce Robot1.set_lastTime Robot1.set_groundOffset
   Robot1.set_groundSpeed Robot1.set_trail Robot1.set_pidController
   Robot1.update Robot1.x Robot1.y Robot1.time Robot1.deltaTime].

Lemma robot1_update_shift Math_sin d r t :
  Robot1.update Math_sin (shift_robot d r) (t + d)
  = shift_robot d (Robot1.update Math_sin r t).
Proof.
  destruct r. unfold shift_robot. robot1_eval'. rewrite shift_elapsed.
  generalize (min (of_Z (t - lastTime) / Fin 1000) (Fin 0.1)). intro q.
  destruct (isNaN q || (q <=? Fin 0)); [reflexivity|].
  rewrite ?length_app, ?length_map.
  match goal with
  | |- context [map (shift_point d) ?l ++ [Robot1.mkTrailPoint ?X ?Y (t + d)%Z]] =>
      replace (map (shift_point d) l ++ [Robot1.mkTrailPoint X Y (t + d)%Z])
        with (map (shift_point d) (l ++ [Robot1.mkTrailPoint X Y t]))
        by (rewrite map_app; reflexivity)
  end.
  destruct (_ >? _)%Z; rewrite ?tl_map, filter_shift; reflexivity.
Qed.

Lemma set_pidController_shift d c r :
  Robot1.set_pidController (shift_controller d c) (shift_robot d r)
  = shift_robot d (Robot1.set_pidController c r).
Proof. destruct r. reflexivity. Qed.

Lemma setTorque_shift d r v :
  Robot1.setTorque (shift_robot d r) v = shift_robot d (Robot1.setTorque r v).
Proof. destruct r. reflexivity. Qed.

Lemma applyDisturbance_shift d r f :
  Robot1.applyDisturbance (shift_robot d r) f
  = shift_robot d (Robot1.applyDisturbance r f).
Proof. destruct r. reflexivity. Qed.

Lemma enhanced_reset_shift d c now :
  Enhanced.reset (shift_controller d c) (now + d)
  = shift_controller d (Enhanced.reset c now).
Proof. destruct c. reflexivity. Qed.

Lemma enhanced_setGains_shift d c kp ki kd :
  Enhanced.setGains (shift_controller d c) kp ki kd
  = shift_controller d (Enhanced.setGains c kp ki kd).
Proof. destruct c. reflexivity. Qed.

Lemma robot1_reset_shift d r now pidNow :
  Robot1.reset (shift_robot d r) (now + d) (pidNow + d)
  = shift_robot d (Robot1.reset r now pidNow).
Proof. destruct r as [c]. destruct c. reflexivity. Qed.

Ltac app_eval :=
  cbv beta iota zeta delta
    [App.animate App.startSimulation App.pauseSimulation App.resetSimulation
     App.updatePIDParameters App.addDisturbance App.step
     App.set_robot App.set_pidController App.set_isRunning
     App.set_lastUpdateTime App.pidController App.robot App.isRunning
     App.lastUpdateTime App.t_animate App.t_robot App.t_calculate App.t_store
     shift_app shift_clock shift_event negb].

Section AppShift.
Variable Math_sin : num -> num.

Lemma animate_running app clk :
  App.isRunning app = true ->
  App.animate Math_sin app clk
  = let r1 := Robot1.update Math_sin (App.robot app) (App.t_robot clk) in
    let res :=
      Enhanced.update (Robot1.pidController r1) (App.t_calculate clk)
        (App.t_store clk) (Robot1.st_angleDegrees (Robot1.getState r1)) in
    App.mkApp
      (Robot1.setTorque (Robot1.set_pidController (fst res) r1) NaN)
      true (App.t_animate clk).
Proof.
  intro H. destruct app as [r running lut]. cbn [App.isRunning] in H. subst.
  unfold App.animate.
  cbn [App.isRunning negb App.set_lastUpdateTime App.set_robot App.robot
       App.lastUpdateTime App.pidController App.set_pidController].
  destruct (Enhanced.update _ _ _ _) as [c' out]. reflexivity.
Qed.

Lemma animate_paused app clk :
  App.isRunning app = false -> App.animate Math_sin app clk = app.
Proof. intro H. unfold App.animate. now rewrite H. Qed.

Lemma animate_shift d app clk :
  App.animate Math_sin (shift_app d app) (shift_clock d clk)
  = shift_app d (App.animate Math_sin app clk).
Proof.
  destruct (App.isRunning app) eqn:E.
  - rewrite (animate_running (shift_app d app)) by exact E.
    rewrite (animate_running app) by exact E.
    destruct app as [r running lut]. destruct clk as [ta tr tc ts].
    cbn [App.robot App.t_robot App.t_calculate App.t_store App.t_animate
         shift_app shift_clock].
    rewrite robot1_update_shift.
    generalize (Robot1.update Math_sin r tr). intro r'. cbv zeta.
    change (Robot1.pidController (shift_robot d r'))
      with (shift_controller d (Robot1.pidController r')).
    change (Robot1.st_angleDegrees (Robot1.getState (shift_robot d r')))
      with (Robot1.st_angleDegrees (Robot1.getState r')).
    generalize (Robot1.st_angleDegrees (Robot1.getState r')). intro v.
    unfold Enhanced.update.
    change (Enhanced.setpoint (shift_controller d (Robot1.pidController r')))
      with (Enhanced.setpoint (Robot1.pidController r')).
    rewrite calculate_shift. cbn [fst].
    rewrite set_pidController_shift, setTorque_shift. reflexivity.
  - rewrite (animate_paused (shift_app d app)) by exact E.
    rewrite (animate_paused app) by exact E. reflexivity.
Qed.

Lemma step_shift d app e :
  App.step Math_sin (shift_app d app) (shift_event d e)
  = shift_app d (App.step Math_sin app e).
Proof.
  destruct e as [clk | now clk | | now pidNow pidNow' | kp ki kd | random];
    cbn [App.step shift_event].
  - apply animate_shift.
  - unfold App.startSimulation. cbn [App.isRunning shift_app].
    destruct (App.isRunning app) eqn:E; cbn [negb]; [reflexivity|].
    rewrite <- animate_shift. f_equal.
  - reflexivity.
  - destruct app as [r running lut]. app_eval.
    rewrite robot1_reset_shift.
    generalize (Robot1.reset r now pidNow). intro r'.
    change (Robot1.pidController (shift_robot d r'))
      with (shift_controller d (Robot1.pidController r')).
    rewrite enhanced_reset_shift, set_pidController_shift. reflexivity.
  - destruct app as [r running lut]. app_eval.
    change (Robot1.pidController (shift_robot d r))
      with (shift_controller d (Robot1.pidController r)).
    rewrite enhanced_setGains_shift, set_pidController_shift. reflexivity.
  - destruct app as [r running lut]. app_eval.
    rewrite applyDisturbance_shift. reflexivity.
Qed.

Lemma trajectory_shift d events : forall app,
  App.trajectory Math_sin (shift_app d app) (map (shift_event d) events)
  = map (shift_app d) (App.trajectory Math_sin app events).
Proof.
  induction events as [|e events IH]; intro app; [reflexivity|].
  cbn [map App.trajectory]. rewrite step_shift. f_equal. apply IH.
Qed.
End AppShift.

Lemma physical_shift d app : physical (shift_app d app) = physical app.
Proof.
  destruct app as [r running lut]. destruct r as [c]. destruct c.
  unfold physical, shift_app, shift_robot, shift_controller.
  cbn. rewrite map_map. reflexivity.
Qed.

(** C6.  The states the simulation loop goes through are a function of the
    initial state and of the sequence of events (animation frames with their
    clock readings, gain changes, disturbances, resets): two runs that agree
    on these go through identical states.  Moreover two runs that differ
    only by an offset of the clock, in the initial state and in every event,
    go through the same states up to that offset in the stored time stamps;
    in particular through identical physical and controller states, since the
    loop uses the clock only through the elapsed times. *)
Theorem simulation_deterministic (Math_sin : num -> num) :
  (forall app events1 events2,
      events1 = events2 ->
      App.trajectory Math_sin app events1 = App.trajectory Math_sin app events2)
  /\ (forall delta app events,
      App.trajectory Math_sin (shift_app delta app)
        (map (shift_event delta) events)
      = map (shift_app delta) (App.trajectory Math_sin app events))
  /\ (forall delta app events,
      map physical
        (App.trajectory Math_sin (shift_app delta app)
           (map (shift_event delta) events))
      = map physical (App.trajectory Math_sin app events)).
Proof.
  split; [|split].
  - intros app events1 events2 ->. reflexivity.
  - intros. apply trajectory_shift.
  - intros. rewrite trajectory_shift, map_map.
    apply map_ext. intro a. apply physical_shift.
Qed.

(** ** The theorems at concrete inputs *)

(** A rational stand-in for [Math.sin], finite on finite numbers. *)
Definition sin_cubic (a : num) : num :=
  match a with
  | Fin q => Fin (q - q * q * q / 6)
  | _ => NaN
  end.




Lemma calculate_degenerate_timestep_witness :
  let c := Enhanced.constructor 0 0 None None None in
  (NegInf <=? Fin 0) = true
  /\ Enhanced.effectiveDeltaTime c 5 (Some NegInf) = Fin 0.001
  /\ Enhanced.calculate c 5 6 (Fin 1) (Fin 0) (Some NegInf)
     = Enhanced.calculate c 5 6 (Fin 1) (Fin 0) (Some (Fin 0.001)).
Proof.
  split; [reflexivity|].
  exact (calculate_degenerate_timestep
           (Enhanced.constructor 0 0 None None None) 5 6 (Fin 1) (Fin 0)
           (Some NegInf) eq_refl).
Defined.

Lemma update_noop_on_degenerate_timestep_witness :
  let r := Robot0.applyDisturbance
             (Robot0.constructor (Fin 800) (Fin 600) 100) None in
  (Robot0.deltaTime r 100 <=? Fin 0) = true
  /\ Robot0.update sin_cubic r 100 = Robot0.set_lastTime 100 r.
Proof.
  split; [reflexivity|].
  exact (proj1 (update_noop_on_degenerate_timestep sin_cubic)
           (Robot0.applyDisturbance
              (Robot0.constructor (Fin 800) (Fin 600) 100) None)
           100%Z (or_introl eq_refl)).
Defined.

Lemma simulation_deterministic_witness :
  let app :=
    App.mkApp
      (Robot1.constructor (Fin 800) (Fin 600) None (0, 0)%Z 0) true 0 in
  let events := [App.Frame (App.mkClock 16 16 17 17); App.Disturb (Fin 0.5)] in
  App.trajectory sin_cubic app events = App.trajectory sin_cubic app events.
Proof.
  exact (proj1 (simulation_deterministic sin_cubic)
           (App.mkApp
              (Robot1.constructor (Fin 800) (Fin 600) None (0, 0)%Z 0) true 0)
           [App.Frame (App.mkClock 16 16 17 17); App.Disturb (Fin 0.5)]
           [App.Frame (App.mkClock 16 16 17 17); App.Disturb (Fin 0.5)]
           eq_refl).
Defined.


Lemma autoTune_without_error_fails_witness :
  let c := Enhanced.constructor 0 0 None None None in
  let clock := fun i : Z => (i, i) in
  EnhancedCalls.finite_controller c = true
  /\ EnhancedCalls.well_configured c = true
  /\ Enhanced.success (snd (Enhanced.autoTune c clock (Fin 3) (Fin 3) None))
     = false
  /\ Enhanced.kp (fst (Enhanced.autoTune c clock (Fin 3) (Fin 3) None))
     = Fin 2.5.
Proof.
  split; [reflexivity | split; [reflexivity|]].
  pose proof (autoTune_without_error_fails
                (Enhanced.constructor 0 0 None None None)
                (fun i : Z => (i, i)) (Fin 3) None eq_refl eq_refl eq_refl)
    as H.
  split; [exact (proj1 H) | exact (proj1 (proj2 H))].
Defined.

Lemma histories_bounded_ring_buffers_witness :
  let calls := repeat (EnhancedCalls.StoreHistory 0 (Fin 0) (Fin 0) None) 1000 in
  let c := EnhancedCalls.run (Enhanced.constructor 0 0 None None None) calls in
  length (Enhanced.errorHistory c) = 1000%nat
  /\ Enhanced.errorHistory (Enhanced.storeHistory c 7 (Fin 1) (Fin 2) None)
     = tl (Enhanced.errorHistory c) ++ [Fin 1].
Proof.
  assert (H : length
                (Enhanced.errorHistory
                   (EnhancedCalls.run (Enhanced.constructor 0 0 None None None)
                      (repeat (EnhancedCalls.StoreHistory 0 (Fin 0) (Fin 0) None)
                         1000))) = 1000%nat)
    by (vm_compute; reflexivity).
  split; [exact H|].
  exact (proj1
           (proj1 (proj2 (proj2 histories_bounded_ring_buffers)) 0%Z 0%Z None
              None None
              (repeat (EnhancedCalls.StoreHistory 0 (Fin 0) (Fin 0) None) 1000)
              7%Z (Fin 1) (Fin 2) None H)).
Defined.

(** * Further properties *)

Local Open Scope Q_scope.
Local Open Scope num_scope.

(** ** One call of the basic controller *)

Section BasicUpdate.
Import Basic.

Lemma basic_update_result c t cv :
  (lastTime c < t)%Z ->
  let dt := of_Z (t - lastTime c) / Fin 1000 in
  let e := setpoint c - cv in
  let i := max (integralMin c) (min (integralMax c) (integral c + e * dt)) in
  let raw := kp c * e + ki c * i + kd c * (e - previousError c) / dt in
  let out := max (outputMin c) (min (outputMax c) raw) in
  snd (update c t cv)
  = RObject (mkUpdateObject out e (kp c * e) (ki c * i)
               (kd c * (e - previousError c) / dt))
  /\ integral (fst (update c t cv)) = i
  /\ previousError (fst (update c t cv)) = e
  /\ lastTime (fst (update c t cv)) = t.
Proof.
  intro H. unfold update. cbn.
  replace (Qleb _ 0) with false
    by (symmetry; apply Qleb_false; apply elapsed_pos; lia).
  cbn. destruct (_ >? _)%Z; cbn; auto.
Qed.





(** X2. The basic controller's [update] returns the bare number [0], and
    not a result object, exactly when the clock has not advanced since the
    last call; the controller, [lastTime] included, is then left as it
    was. *)
Theorem basic_update_number_iff_clock_stalled c t cv :
  ((t <= lastTime c)%Z -> update c t cv = (c, RNumber (Fin 0)))
  /\ ((exists n, snd (update c t cv) = RNumber n) <-> (t <= lastTime c)%Z)
  /\ ((exists o, snd (update c t cv) = RObject o) <-> (lastTime c < t)%Z).
Proof.
  assert (S : (t <= lastTime c)%Z -> update c t cv = (c, RNumber (Fin 0)))
    by apply basic_update_stalled.
  assert (A : (lastTime c < t)%Z -> exists o, snd (update c t cv) = RObject o).
  { intro H. destruct (basic_update_result c t cv H) as (E & _).
    eexists. exact E. }
  split; [exact S|]. split; split.
  - intros (n & En). destruct (Z_le_gt_dec t (lastTime c)) as [|G]; [assumption|].
    destruct (A ltac:(lia)) as (o & Eo). congruence.
  - intro H. exists (Fin 0). now rewrite (S H).
  - intros (o & Eo). destruct (Z_le_gt_dec t (lastTime c)) as [L|G]; [|lia].
    rewrite (S L) in Eo. discriminate.
  - exact A.
Qed.
End BasicUpdate.

(** ** Wind-up, [NaN] and the metrics of the enhanced controller *)

Section Windup.
Import Enhanced EnhancedCalls EnhancedForm.
Local Open Scope Q_scope.




End Windup.

Section EnhancedSaturation.
Import Enhanced EnhancedCalls EnhancedForm.


(** The output of a call in terms of the fields before it and the
    accumulator after it. *)
Lemma calculate_output_form c t s sp cv dt :
  exists P D maxChange,
    snd (calculate c t s sp cv dt)
    = max (outputMin c)
        (min (outputMax c)
           (max (lastOutput c - maxChange)
              (min (lastOutput c + maxChange)
                 (P + ki c * integral (fst (calculate c t s sp cv dt)) + D)))).
Proof.
  unfold calculate. set (q := effectiveDeltaTime c t dt). clearbody q.
  destruct (q >? Fin 0); cbn; unfold storeHistory; cbn;
    destruct (_ >? _)%Z; cbn; do 3 eexists; reflexivity.
Qed.

Lemma max_NaN_r a : max a NaN = NaN.
Proof. destruct a; reflexivity. Qed.
Lemma min_NaN_r a : min a NaN = NaN.
Proof. destruct a; reflexivity. Qed.
Lemma add_NaN_r a : a + NaN = NaN.
Proof. destruct a; reflexivity. Qed.
Lemma add_NaN_l a : NaN + a = NaN.
Proof. reflexivity. Qed.
Lemma mul_NaN_r a : a * NaN = NaN.
Proof. destruct a; reflexivity. Qed.
Lemma sub_NaN_r a : a - NaN = NaN.
Proof. destruct a; reflexivity. Qed.

(** X4. A [NaN] measurement poisons the enhanced controller: the call
    leaves [NaN] in the accumulator, and from a [NaN] accumulator every later
    call, whatever its arguments, keeps the accumulator [NaN] and returns
    [NaN]; [reset] puts the accumulator back to [0]. *)
Theorem calculate_NaN_latches :
  (forall c t s sp dt,
      integral (fst (calculate c t s sp NaN dt)) = NaN)
  /\ (forall c t s sp cv dt,
      integral c = NaN ->
      integral (fst (calculate c t s sp cv dt)) = NaN
      /\ snd (calculate c t s sp cv dt) = NaN)
  /\ (forall c now, integral (reset c now) = Fin 0).
Proof.
  split; [|split].
  - intros. destruct (calculate_integral c t s sp NaN dt) as (-> & _).
    rewrite sub_NaN_r. cbn [mul]. now rewrite add_NaN_r, min_NaN_r, max_NaN_r.
  - intros c t s sp cv dt H.
    assert (E : integral (fst (calculate c t s sp cv dt)) = NaN).
    { destruct (calculate_integral c t s sp cv dt) as (-> & _).
      rewrite H. cbn [add]. now rewrite min_NaN_r, max_NaN_r. }
    split; [exact E|].
    destruct (calculate_output_form c t s sp cv dt) as (P & D & m & ->).
    rewrite E, mul_NaN_r, add_NaN_r. cbn [add].
    now rewrite !min_NaN_r, !max_NaN_r, min_NaN_r, max_NaN_r.
  - reflexivity.
Qed.
End EnhancedSaturation.

Section EnhancedReports.
Import Enhanced EnhancedCalls EnhancedForm.
Variable Math_sqrt : num -> num.

Lemma calculate_lastOutput c t s sp cv dt :
  lastOutput (fst (calculate c t s sp cv dt)) = snd (calculate c t s sp cv dt)
  /\ filteredDerivative (fst (calculate c t s sp cv dt))
     = (if effectiveDeltaTime c t dt >? Fin 0 then
          alpha c * ((sp - cv - previousError c) / effectiveDeltaTime c t dt)
          + (Fin 1 - alpha c) * filteredDerivative c
        else filteredDerivative c).
Proof.
  unfold calculate. set (q := effectiveDeltaTime c t dt). clearbody q.
  destruct (q >? Fin 0); cbn; unfold storeHistory; cbn;
    destruct (_ >? _)%Z; cbn; split; reflexivity.
Qed.

Lemma last_app_one {A} (l : list A) (x d : A) : last (l ++ [x]) d = x.
Proof.
  induction l as [|a l IH]; [reflexivity|]. cbn.
  destruct (l ++ [x]) eqn:E; [destruct l; discriminate|]. exact IH.
Qed.

Lemma calculate_last_error c t s sp cv dt :
  history_inv c ->
  errorHistory (fst (calculate c t s sp cv dt)) <> []
  /\ last (errorHistory (fst (calculate c t s sp cv dt))) (Fin 0) = sp - cv.
Proof.
  intro H. destruct (calculate_histories c t s sp cv dt) as (k & -> & _ & _).
  destruct (Nat.eq_dec (length (errorHistory c)) 1000) as [E|E].
  - destruct (storeHistory_evicts c s (sp - cv)
                (snd (calculate c t s sp cv dt)) k H E) as (-> & _).
    split; [|apply last_app_one].
    destruct (tl (errorHistory c)); discriminate.
  - destruct H as (H1 & H2 & H3).
    destruct (storeHistory_appends c s (sp - cv)
                (snd (calculate c t s sp cv dt)) k (conj H1 (conj H2 H3))
                ltac:(lia)) as (-> & _).
    split; [|apply last_app_one].
    destruct (errorHistory c); discriminate.
Qed.

(** X5. Right after a call of [calculate], [getPerformanceMetrics] of the
    enhanced controller reports that call: [currentError] is the call's
    [setpoint - currentValue] and [output] is the value the call
    returned. *)
Theorem metrics_report_last_call c t s sp cv dt :
  history_inv c ->
  let c' := fst (calculate c t s sp cv dt) in
  let m := getPerformanceMetrics Math_sqrt c' in
  m_currentError m = sp - cv
  /\ m_output m = snd (calculate c t s sp cv dt).
Proof.
  intro H. cbv zeta. unfold getPerformanceMetrics.
  cbn [m_currentError m_output].
  destruct (calculate_last_error c t s sp cv dt H) as (Hne & Hl).
  split.
  - destruct (errorHistory (fst (calculate c t s sp cv dt))) eqn:E;
      [congruence|]. cbn [length Nat.ltb Nat.leb]. exact Hl.
  - apply calculate_lastOutput.
Qed.

Lemma autoTune_loop_setpoint clock pv sp cy remaining :
  forall j c peaks lo lc,
  setpoint (fst (autoTune_loop clock pv sp cy remaining j c peaks lo lc))
  = match remaining with O => setpoint c | _ => sp end.
Proof.
  induction remaining as [|n IH]; intros j c peaks lo lc; [reflexivity|].
  cbn [autoTune_loop].
  destruct (calculate_integral c (fst (clock j)) (snd (clock j)) sp pv
              (Some (Fin 0.02))) as (_ & _ & _ & E).
  destruct (calculate c (fst (clock j)) (snd (clock j)) sp pv (Some (Fin 0.02)))
    as [c1 out]. cbn [fst] in E.
  destruct (lo * out <? Fin 0);
    [destruct (_ >? Fin 0.1)|]; destruct (_ >=? _); cbn [fst]; auto;
    rewrite IH; destruct n; auto.
Qed.

(** X6. Whatever its arguments and clock readings, and whether it succeeds
    or not, [autoTune] hands back the controller with [integral],
    [filteredDerivative] and [previousError] as they were before the trial
    calls, but with [setpoint] overwritten by its [setpoint] argument. *)
Theorem autoTune_restores_accumulators c clock pv sp cy :
  let c' := fst (autoTune c clock pv sp cy) in
  integral c' = integral c
  /\ filteredDerivative c' = filteredDerivative c
  /\ previousError c' = previousError c
  /\ setpoint c' = sp.
Proof.
  cbv zeta. unfold autoTune.
  pose proof (autoTune_loop_setpoint clock pv sp
                (match cy with Some v => v | None => Fin 5 end) 1000 0 c []
                (Fin 0) 0%Z) as E.
  destruct (autoTune_loop _ _ _ _ _ _ _ _ _ _) as [c1 peaks].
  cbn [fst] in E.
  destruct (4 <=? length peaks)%nat.
  - destruct (peak_gaps _ _ _ _) as [periods sumAmplitude].
    cbn. auto.
  - cbn. auto.
Qed.
End EnhancedReports.

(** ** What the robots report and record *)




Lemma fold_left_invariant {A B : Type} (P : A -> Prop) (f : A -> B -> A) :
  (forall a b, P a -> P (f a b)) ->
  forall l a, P a -> P (fold_left f l a).
Proof.
  intros Hf l. induction l as [|b l IH]; intros a Ha; [exact Ha|].
  cbn [fold_left]. apply IH. now apply Hf.
Qed.

Section TrailStep.
Context {A : Type} (time : A -> Z).

Lemma filter_length_le (f : A -> bool) (l : list A) :
  (List.length (filter f l) <= List.length l)%nat.
Proof.
  induction l as [|a l IH]; [apply le_n|]. cbn. destruct (f a); cbn; lia.
Qed.

Lemma trail_step (l : list A) (pt : A) (now timeout maxlen : Z) :
  time pt = now -> (0 < timeout)%Z ->
  let l1 := l ++ [pt] in
  let l2 := if (Z.of_nat (List.length l1) >? maxlen)%Z then tl l1 else l1 in
  let l3 := filter (fun p => (now - time p <? timeout)%Z) l2 in
  Forall (fun p => (now - time p < timeout)%Z) l3
  /\ (Z.of_nat (List.length l3)
      <= Z.max (Z.of_nat (List.length l)) maxlen)%Z
  /\ ((1 <= maxlen)%Z -> exists l', l3 = l' ++ [pt]).
Proof.
  intros Ht Hpos l1 l2 l3. split; [|split].
  - apply Forall_forall. intros p Hp. apply filter_In in Hp.
    destruct Hp as [_ Hp]. now apply Z.ltb_lt in Hp.
  - pose proof (filter_length_le (fun p => (now - time p <? timeout)%Z) l2) as F.
    fold l3 in F.
    assert (L1 : List.length l1 = Datatypes.S (List.length l))
      by (unfold l1; rewrite length_app; cbn; lia).
    assert (L2 : (Z.of_nat (List.length l2)
                  <= Z.max (Z.of_nat (List.length l)) maxlen)%Z).
    { unfold l2. destruct (_ >? _)%Z eqn:E.
      - rewrite length_tl, L1. cbn [pred]. lia.
      - rewrite Z.gtb_ltb in E. apply Z.ltb_ge in E. lia. }
    lia.
  - intro Hmax.
    assert (E2 : exists l', l2 = l' ++ [pt]).
    { unfold l2. destruct (_ >? _)%Z eqn:E; [|now exists l].
      destruct l as [|a l']; [cbn in E; lia|].
      exists l'. reflexivity. }
    destruct E2 as (l' & E2). unfold l3. rewrite E2, filter_app. cbn.
    replace (now - time pt <? timeout)%Z with true
      by (symmetry; apply Z.ltb_lt; lia).
    eexists. reflexivity.
Qed.
End TrailStep.

Section Trail.
Variable Math_sin : num -> num.

Lemma robot0_update_trail r now :
  (Robot0.lastTime r < now)%Z ->
  exists pt,
    Robot0.time pt = now /\ Robot0.y pt = Robot0.baseY r
    /\ Robot0.maxTrailLength (Robot0.update Math_sin r now)
       = Robot0.maxTrailLength r
    /\ Robot0.trail (Robot0.update Math_sin r now)
       = filter (fun p => (now - Robot0.time p <? 2000)%Z)
           (if (Z.of_nat (List.length (Robot0.trail r ++ [pt]))
                >? Robot0.maxTrailLength r)%Z
            then tl (Robot0.trail r ++ [pt]) else Robot0.trail r ++ [pt]).
Proof.
  intro H. destruct (robot0_timestep_pos r now H) as (q & E & Hq).
  assert (G : (Robot0.deltaTime r now <=? Fin 0) = false)
    by (rewrite E; apply Qleb_false; exact Hq).
  robot0_eval. rewrite G.
  match goal with
  | |- context [Robot0.mkTrailPoint ?a ?b ?c] =>
      exists (Robot0.mkTrailPoint a b c)
  end.
  destruct (_ >? _)%Z; repeat split; reflexivity.
Qed.

Lemma robot1_update_trail r now :
  (Robot1.lastTime r < now)%Z ->
  exists pt,
    Robot1.time pt = now /\ Robot1.y pt = Robot1.baseY r + Fin 20
    /\ Robot1.maxTrailLength (Robot1.update Math_sin r now)
       = Robot1.maxTrailLength r
    /\ Robot1.trail (Robot1.update Math_sin r now)
       = filter (fun p => (now - Robot1.time p <? 3000)%Z)
           (if (Z.of_nat (List.length (Robot1.trail r ++ [pt]))
                >? Robot1.maxTrailLength r)%Z
            then tl (Robot1.trail r ++ [pt]) else Robot1.trail r ++ [pt]).
Proof.
  intro H. destruct (robot1_timestep_pos r now H) as (q & E & Hq).
  assert (G : (Robot1.deltaTime r now <=? Fin 0) = false)
    by (rewrite E; apply Qleb_false; exact Hq).
  robot1_eval. rewrite G, E. cbn [isNaN orb].
  match goal with
  | |- context [Robot1.mkTrailPoint ?a ?b ?c] =>
      exists (Robot1.mkTrailPoint a b c)
  end.
  destruct (_ >? _)%Z; repeat split; reflexivity.
Qed.

(** X8. After a physics step with an advanced clock, every point of the
    trail is younger than the trail timeout (2000 ms for the first robot
    class, 3000 ms for the second), the trail is no longer than the larger of
    its previous length and [maxTrailLength], and, when [maxTrailLength] is
    at least [1], its last point is the one just recorded. *)
Theorem trail_is_fresh_and_bounded :
  (forall r now,
      (Robot0.lastTime r < now)%Z ->
      let r' := Robot0.update Math_sin r now in
      Forall (fun p => (now - Robot0.time p < 2000)%Z) (Robot0.trail r')
      /\ (Z.of_nat (List.length (Robot0.trail r'))
          <= Z.max (Z.of_nat (List.length (Robot0.trail r)))
               (Robot0.maxTrailLength r))%Z
      /\ ((1 <= Robot0.maxTrailLength r)%Z ->
          exists l pt, Robot0.trail r' = l ++ [pt] /\ Robot0.time pt = now
                       /\ Robot0.y pt = Robot0.baseY r))
  /\ (forall r now,
      (Robot1.lastTime r < now)%Z ->
      let r' := Robot1.update Math_sin r now in
      Forall (fun p => (now - Robot1.time p < 3000)%Z) (Robot1.trail r')
      /\ (Z.of_nat (List.length (Robot1.trail r'))
          <= Z.max (Z.of_nat (List.length (Robot1.trail r)))
               (Robot1.maxTrailLength r))%Z
      /\ ((1 <= Robot1.maxTrailLength r)%Z ->
          exists l pt, Robot1.trail r' = l ++ [pt] /\ Robot1.time pt = now
                       /\ Robot1.y pt = Robot1.baseY r + Fin 20)).
Proof.
  split; intros r now H r'; subst r'.
  - destruct (robot0_update_trail r now H) as (pt & Ht & Hy & _ & ->).
    destruct (trail_step Robot0.time (Robot0.trail r) pt now 2000
                (Robot0.maxTrailLength r) Ht ltac:(lia)) as (F & L & N).
    split; [exact F|]. split; [exact L|].
    intro M. destruct (N M) as (l' & E). exists l', pt. auto.
  - destruct (robot1_update_trail r now H) as (pt & Ht & Hy & _ & ->).
    destruct (trail_step Robot1.time (Robot1.trail r) pt now 3000
                (Robot1.maxTrailLength r) Ht ltac:(lia)) as (F & L & N).
    split; [exact F|]. split; [exact L|].
    intro M. destruct (N M) as (l' & E). exists l', pt. auto.
Qed.
End Trail.

(** ** The upright equilibrium *)

Section Rest.
Variable Math_sin : num -> num.
Hypothesis sin_zero : forall a, is_zero a = true -> is_zero (Math_sin a) = true.

Lemma zero_finite a : is_zero a = true -> is_finite a = true.
Proof. destruct a; try discriminate; reflexivity. Qed.

Lemma zero_Q a : is_zero a = true -> exists q, a = Fin q /\ (q == 0)%Q.
Proof.
  destruct a as [| | |q]; try discriminate. intro H.
  exists q. split; [reflexivity|]. now apply Qeq_bool_iff.
Qed.

Lemma zero_of_Q q : (q == 0)%Q -> is_zero (Fin q) = true.
Proof. intro H. now apply Qeq_bool_iff. Qed.

Lemma zero_add a b : is_zero a = true -> is_zero b = true -> is_zero (a + b) = true.
Proof.
  intros Ha Hb. destruct (zero_Q a Ha) as (x & -> & Hx).
  destruct (zero_Q b Hb) as (y & -> & Hy). apply zero_of_Q. lra.
Qed.

Lemma zero_sub a b : is_zero a = true -> is_zero b = true -> is_zero (a - b) = true.
Proof.
  intros Ha Hb. destruct (zero_Q a Ha) as (x & -> & Hx).
  destruct (zero_Q b Hb) as (y & -> & Hy). apply zero_of_Q. lra.
Qed.

Lemma zero_mul_l a b : is_zero a = true -> is_finite b = true -> is_zero (a * b) = true.
Proof.
  intros Ha Hb. destruct (zero_Q a Ha) as (x & -> & Hx).
  destruct b as [| | |y]; try discriminate. apply zero_of_Q.
  rewrite Hx. ring.
Qed.

Lemma zero_mul_r a b : is_finite a = true -> is_zero b = true -> is_zero (a * b) = true.
Proof.
  intros Ha Hb. destruct (zero_Q b Hb) as (y & -> & Hy).
  destruct a as [| | |x]; try discriminate. apply zero_of_Q.
  rewrite Hy. ring.
Qed.

Lemma zero_div a b : is_zero a = true -> is_nonzero b = true -> is_zero (a / b) = true.
Proof.
  intros Ha Hb. destruct (zero_Q a Ha) as (x & -> & Hx).
  destruct b as [| | |y]; try discriminate. cbn in Hb.
  apply negb_true_iff in Hb. cbn.
  destruct (y ?= 0)%Q eqn:E.
  - apply Qeq_alt in E. apply Qeq_bool_iff in E. congruence.
  - apply zero_of_Q. rewrite Hx. unfold Qdiv. ring.
  - apply zero_of_Q. rewrite Hx. unfold Qdiv. ring.
Qed.

Lemma zero_clamp a :
  is_zero a = true ->
  is_zero (max (- Math_PI / Fin 2) (min (Math_PI / Fin 2) a)) = true.
Proof.
  intro Ha. destruct (zero_Q a Ha) as (x & -> & Hx). unfold Math_PI.
  set (p := (884279719003555 # 281474976710656)%Q).
  change (- Fin p / Fin 2) with (Fin (- p / 2)).
  change (Fin p / Fin 2) with (Fin (p / 2)).
  cbn [min max]. apply zero_of_Q.
  assert (H1 : (- p / 2 < 0)%Q) by reflexivity.
  assert (H2 : (0 < p / 2)%Q) by reflexivity.
  destruct (Qminb_cases (p / 2) x) as [[? E]|[? E]]; rewrite E;
  [destruct (Qmaxb_cases (- p / 2) x) as [[? E']|[? E']]
  |destruct (Qmaxb_cases (- p / 2) (p / 2)) as [[? E']|[? E']]]; rewrite E'; lra.
Qed.

Lemma robot1_update_fields r now :
  (Fin 0 <? Robot1.deltaTime r now) = true ->
  let dt := Robot1.deltaTime r now in
  let r' := Robot1.update Math_sin r now in
  let mll := Robot1.mass r * Robot1.length r * Robot1.length r in
  let w :=
    Robot1.angularVelocity r
    + (Robot1.gravity r / Robot1.length r * Math_sin (Robot1.angle r)
       - Robot1.friction r / mll * Robot1.angularVelocity r
       + Robot1.torque r / mll + Robot1.disturbanceForce r / mll) * dt in
  Robot1.angularVelocity r' = w
  /\ Robot1.angle r'
     = max (- Math_PI / Fin 2) (min (Math_PI / Fin 2) (Robot1.angle r + w * dt))
  /\ Robot1.velocity r'
     = (Robot1.velocity r
        + (Math_sin (Robot1.angle r + w * dt) * Fin 5 - Robot1.velocity r)
          * Fin 2.0 * dt) * Fin 0.98
  /\ Robot1.torque r' = Robot1.torque r
  /\ Robot1.disturbanceForce r'
     = Robot1.disturbanceForce r * Robot1.disturbanceDecay r
  /\ Robot1.mass r' = Robot1.mass r /\ Robot1.length r' = Robot1.length r
  /\ Robot1.gravity r' = Robot1.gravity r
  /\ Robot1.friction r' = Robot1.friction r
  /\ Robot1.disturbanceDecay r' = Robot1.disturbanceDecay r.
Proof.
  intro H.
  assert (G : (Robot1.deltaTime r now <=? Fin 0) = false).
  { destruct (Robot1.deltaTime r now); try discriminate; cbn in *;
      try reflexivity.
    apply Qleb_false. now apply Qltb_true. }
  assert (N : isNaN (Robot1.deltaTime r now) = false)
    by (destruct (Robot1.deltaTime r now); try discriminate; reflexivity).
  robot1_eval. rewrite G, N. cbn [orb].
  destruct (_ >? _)%Z; repeat split; reflexivity.
Qed.

Lemma not_pos_nonpos a :
  is_finite a = true -> (Fin 0 <? a) = false -> (a <=? Fin 0) = true.
Proof.
  destruct a as [| | |q]; try discriminate. intros _ H.
  apply Qleb_true. now apply Qltb_false in H.
Qed.

Lemma at_rest_set_lastTime r now :
  at_rest (Robot1.set_lastTime now r) = at_rest r.
Proof. destruct r; reflexivity. Qed.

Lemma at_rest_iff r :
  at_rest r = true <->
  is_zero (Robot1.angle r) = true /\ is_zero (Robot1.angularVelocity r) = true
  /\ is_zero (Robot1.velocity r) = true /\ is_zero (Robot1.torque r) = true
  /\ is_zero (Robot1.disturbanceForce r) = true
  /\ is_nonzero (Robot1.mass r) = true /\ is_nonzero (Robot1.length r) = true
  /\ is_finite (Robot1.gravity r) = true /\ is_finite (Robot1.friction r) = true
  /\ is_finite (Robot1.disturbanceDecay r) = true.
Proof. unfold at_rest. rewrite !andb_true_iff. tauto. Qed.

Lemma at_rest_step_pos r now :
  (Fin 0 <? Robot1.deltaTime r now) = true ->
  at_rest r = true -> at_rest (Robot1.update Math_sin r now) = true.
Proof.
  intros Hdt H.
  - apply at_rest_iff in H.
    destruct H as (Ha & Hw & Hv & Ht & Hd & Hm & Hl & Hg & Hf & Hc).
    assert (Hmll : is_nonzero (Robot1.mass r * Robot1.length r * Robot1.length r) = true)
      by (repeat apply nonzero_mul; assumption).
    assert (Hfin : is_finite (Robot1.deltaTime r now) = true)
      by apply capped_elapsed_finite.
    pose proof (robot1_update_fields r now Hdt) as F. cbv zeta in F.
    set (dt := Robot1.deltaTime r now) in *.
    set (w := Robot1.angularVelocity r + _ * dt) in F.
    assert (Zw : is_zero w = true).
    { apply zero_add; [assumption|]. apply zero_mul_l; [|assumption].
      repeat apply zero_add.
      - apply zero_sub.
        + apply zero_mul_r; [apply finite_div; assumption|now apply sin_zero].
        + apply zero_mul_r; [apply finite_div; assumption|assumption].
      - now apply zero_div.
      - now apply zero_div. }
    assert (Za : is_zero (Robot1.angle r + w * dt) = true)
      by (apply zero_add; [assumption|]; now apply zero_mul_l).
    clearbody w dt.
    destruct F as (Ew & Ea & Ev & Et & Ed & Em & El & Eg & Ef & Edc).
    apply at_rest_iff.
    rewrite Ew, Ea, Ev, Et, Ed, Em, El, Eg, Ef, Edc.
    split; [now apply zero_clamp|]. split; [exact Zw|].
    split; [|split; [exact Ht|split; [now apply zero_mul_l|auto 10]]].
    apply zero_mul_l; [|reflexivity].
    apply zero_add; [assumption|].
    apply zero_mul_l; [|assumption]. apply zero_mul_l; [|reflexivity].
    apply zero_sub; [|assumption]. apply zero_mul_l; [|reflexivity].
    now apply sin_zero.
Qed.

Lemma at_rest_step r now :
  at_rest r = true -> at_rest (Robot1.update Math_sin r now) = true.
Proof.
  intro H.
  destruct (Fin 0 <? Robot1.deltaTime r now) eqn:Hdt.
  - now apply at_rest_step_pos.
  - assert (G : (Robot1.deltaTime r now <=? Fin 0) = true)
      by (apply not_pos_nonpos; [apply capped_elapsed_finite|exact Hdt]).
    rewrite (robot1_update_noop Math_sin r now G), at_rest_set_lastTime.
    exact H.
Qed.

Lemma degrees_zero a :
  is_zero a = true -> num_eq (a * Fin 180 / Math_PI) (Fin 0).
Proof.
  intro Ha. destruct (zero_Q a Ha) as (q & -> & Hq).
  unfold Math_PI. cbn. rewrite Hq. reflexivity.
Qed.

Lemma at_rest_angle r :
  at_rest r = true ->
  num_eq (Robot1.angle r) (Fin 0)
  /\ num_eq (Robot1.st_angleDegrees (Robot1.getState r)) (Fin 0).
Proof.
  intro R. apply at_rest_iff in R. destruct R as (Ha & _).
  split; [|now apply degrees_zero].
  destruct (zero_Q _ Ha) as (q & -> & Hq). exact Hq.
Qed.

(** X9. Upright rest is an equilibrium of the second robot class: with a
    sine that is zero at zero, a robot that stands at angle zero with no
    angular or linear velocity, no torque and no disturbance stays so through
    any sequence of [update] calls, whatever the clock readings. *)
Theorem upright_rest_is_kept r clocks :
  at_rest r = true ->
  let r' := fold_left (Robot1.update Math_sin) clocks r in
  at_rest r' = true
  /\ num_eq (Robot1.angle r') (Fin 0)
  /\ num_eq (Robot1.st_angleDegrees (Robot1.getState r')) (Fin 0).
Proof.
  intro H. cbv zeta.
  assert (R : at_rest (fold_left (Robot1.update Math_sin) clocks r) = true)
    by (apply (fold_left_invariant (fun r => at_rest r = true));
        [apply at_rest_step | exact H]).
  split; [exact R|]. now apply at_rest_angle.
Qed.
End Rest.


(** ** The controller output in the animation loop *)

Section Wiring.
Variable Math_sin : num -> num.

Lemma robot1_update_lastTime r now :
  Robot1.lastTime (Robot1.update Math_sin r now) = now.
Proof.
  robot1_eval.
  destruct (isNaN _ || _); [reflexivity|]. destruct (_ >? _)%Z; reflexivity.
Qed.

Lemma robot1_update_NaN_torque r now :
  (Robot1.lastTime r < now)%Z -> Robot1.torque r = NaN ->
  Robot1.angle (Robot1.update Math_sin r now) = NaN.
Proof.
  intros H Ht. destruct (robot1_timestep_pos r now H) as (q & E & Hq).
  assert (Hdt : (Fin 0 <? Robot1.deltaTime r now) = true)
    by (rewrite E; apply Qltb_true; exact Hq).
  destruct (robot1_update_fields Math_sin r now Hdt) as (_ & -> & _).
  rewrite Ht. cbn [div]. rewrite add_NaN_r. cbn [add mul].
  now rewrite !add_NaN_r, min_NaN_r, max_NaN_r.
Qed.

Lemma animated_robot app clk :
  App.isRunning app = true ->
  let app' := App.animate Math_sin app clk in
  App.isRunning app' = true
  /\ Robot1.torque (App.robot app') = NaN
  /\ Robot1.lastTime (App.robot app') = App.t_robot clk
  /\ Robot1.angle (App.robot app')
     = Robot1.angle (Robot1.update Math_sin (App.robot app) (App.t_robot clk))
  /\ App.pidController app'
     = fst (Enhanced.update
              (Robot1.pidController
                 (Robot1.update Math_sin (App.robot app) (App.t_robot clk)))
              (App.t_calculate clk) (App.t_store clk)
              (Robot1.angle
                 (Robot1.update Math_sin (App.robot app) (App.t_robot clk))
               * Fin 180 / Math_PI)).
Proof.
  intro H. cbv zeta. rewrite (animate_running Math_sin app clk H). cbv zeta.
  pose proof (robot1_update_lastTime (App.robot app) (App.t_robot clk)) as L.
  set (r1 := Robot1.update Math_sin (App.robot app) (App.t_robot clk)) in *.
  clearbody r1.
  change (Robot1.st_angleDegrees (Robot1.getState r1))
    with (Robot1.angle r1 * Fin 180 / Math_PI).
  set (res := Enhanced.update _ _ _ _). clearbody res.
  destruct r1. cbn in *. auto.
Qed.

(** X10. [animate] never applies the controller's output: the enhanced
    controller's [update] returns a number, whose [output] property is
    undefined, so after a running frame the robot's torque is [NaN]; the next
    running frame whose physics clock has advanced then turns the robot's
    angle, and with it the controller's accumulator, into [NaN]. *)
Theorem animate_never_applies_the_output app clk :
  App.isRunning app = true ->
  let app1 := App.animate Math_sin app clk in
  Robot1.torque (App.robot app1) = NaN
  /\ forall clk',
       (App.t_robot clk < App.t_robot clk')%Z ->
       let app2 := App.animate Math_sin app1 clk' in
       Robot1.angle (App.robot app2) = NaN
       /\ Enhanced.integral (App.pidController app2) = NaN.
Proof.
  intro H. cbv zeta.
  destruct (animated_robot app clk H) as (R1 & T1 & L1 & _).
  split; [exact T1|]. intros clk' Hc.
  set (app1 := App.animate Math_sin app clk) in *. clearbody app1.
  destruct (animated_robot app1 clk' R1) as (_ & _ & _ & -> & ->).
  assert (N : Robot1.angle (Robot1.update Math_sin (App.robot app1) (App.t_robot clk')) = NaN)
    by (apply robot1_update_NaN_torque; [rewrite L1; exact Hc | exact T1]).
  split; [exact N|]. rewrite N. cbn [mul div].
  unfold Enhanced.update.
  destruct (calculate_integral
              (Robot1.pidController
                 (Robot1.update Math_sin (App.robot app1) (App.t_robot clk')))
              (App.t_calculate clk') (App.t_store clk')
              (Enhanced.setpoint
                 (Robot1.pidController
                    (Robot1.update Math_sin (App.robot app1) (App.t_robot clk'))))
              NaN None) as (-> & _).
  rewrite sub_NaN_r. cbn [mul]. now rewrite add_NaN_r, min_NaN_r, max_NaN_r.
Qed.
End Wiring.

(** ** Slices *)

Lemma slice_suffix {A : Type} (pre l : list A) :
  l <> [] -> slice (pre ++ l) (- Z.of_nat (List.length l)) None = l.
Proof.
  intro Hl. unfold slice, slice_index.
  assert (0 < List.length l)%nat by (destruct l; [congruence|cbn; lia]).
  rewrite length_app.
  replace (- Z.of_nat (List.length l) <? 0)%Z with true
    by (symmetry; apply Z.ltb_lt; lia).
  replace (Z.max (Z.of_nat (List.length pre + List.length l)
                  + - Z.of_nat (List.length l)) 0)
    with (Z.of_nat (List.length pre)) by lia.
  replace (Z.of_nat (List.length pre + List.length l)
           - Z.of_nat (List.length pre))%Z
    with (Z.of_nat (List.length l)) by lia.
  rewrite !Nat2Z.id, skipn_app, skipn_all, Nat.sub_diag. cbn [skipn app].
  apply firstn_all.
Qed.

Lemma slice_window {A : Type} (pre older recent : list A) :
  recent <> [] ->
  (List.length older <= List.length recent)%nat ->
  pre = [] \/ List.length older = List.length recent ->
  slice (pre ++ older ++ recent) (- Z.of_nat (List.length recent) * 2)
    (Some (- Z.of_nat (List.length recent))%Z) = older.
Proof.
  intros Hr Hle Hpre. unfold slice, slice_index.
  assert (0 < List.length recent)%nat by (destruct recent; [congruence|cbn; lia]).
  rewrite !length_app.
  replace (- Z.of_nat (List.length recent) * 2 <? 0)%Z with true
    by (symmetry; apply Z.ltb_lt; lia).
  replace (- Z.of_nat (List.length recent) <? 0)%Z with true
    by (symmetry; apply Z.ltb_lt; lia).
  replace (Z.max (Z.of_nat (List.length pre
                            + (List.length older + List.length recent))
                  + - Z.of_nat (List.length recent) * 2) 0)
    with (Z.of_nat (List.length pre))
    by (destruct Hpre as [-> | E]; cbn [List.length]; lia).
  replace (Z.max (Z.of_nat (List.length pre
                            + (List.length older + List.length recent))
                  + - Z.of_nat (List.length recent)) 0
           - Z.of_nat (List.length pre))%Z
    with (Z.of_nat (List.length older)) by lia.
  rewrite !Nat2Z.id, skipn_app, skipn_all, Nat.sub_diag. cbn [skipn app].
  rewrite firstn_app, firstn_all, Nat.sub_diag. cbn [firstn].
  apply app_nil_r.
Qed.

(** ** The enhanced controller's stability reading *)

Section Stability.
Import Enhanced.
Local Open Scope Q_scope.

Lemma sum_abs_below (b : Q) (l : list num) : forall a0 : Q,
  Forall (fun e => (abs e <? Fin b)%num = true) l ->
  exists s, fold_left (fun a e => a + abs e)%num l (Fin a0) = Fin s
            /\ (l = [] -> s == a0)
            /\ (l <> [] -> s < a0 + b * inject_Z (Z.of_nat (List.length l))).
Proof.
  induction l as [|e l IH]; intros a0 H.
  - exists a0. split; [reflexivity|]. split; [intros _; reflexivity | congruence].
  - inversion H as [|? ? He Hl]; subst.
    destruct e as [| | |q]; try discriminate. cbn in He.
    apply Qltb_true in He.
    destruct (IH (a0 + Qabs q) Hl) as (s & E & H0 & H1).
    exists s. cbn [fold_left abs add]. split; [exact E|].
    split; [discriminate|]. intros _.
    assert (Hn : inject_Z (Z.of_nat (List.length (Fin q :: l)))
                 == inject_Z (Z.of_nat (List.length l)) + 1).
    { cbn [List.length]. rewrite Nat2Z.inj_succ. unfold Z.succ.
      rewrite inject_Z_plus. reflexivity. }
    rewrite Hn.
    destruct l as [|e' l'].
    + specialize (H0 eq_refl).
      change (inject_Z (Z.of_nat (List.length (@nil num)))) with 0. lra.
    + assert (Hne : e' :: l' <> []) by discriminate.
      specialize (H1 Hne). lra.
Qed.

Lemma sum_abs_NaN_acc (l : list num) :
  fold_left (fun a e => a + abs e)%num l NaN = NaN.
Proof. induction l as [|e l IH]; [reflexivity|exact IH]. Qed.

Lemma sum_abs_NaN (l : list num) : forall a,
  In NaN l -> fold_left (fun a e => a + abs e)%num l a = NaN.
Proof.
  induction l as [|e l IH]; intros a H; [destruct H|].
  cbn [fold_left]. destruct H as [-> | H].
  - cbn [abs]. rewrite add_NaN_r. apply sum_abs_NaN_acc.
  - now apply IH.
Qed.

(** X11. [getStabilityStatus] of the enhanced controller answers
    'Initializing' exactly when fewer than ten errors are recorded; it
    answers 'Very Stable' when each of the last ten errors is smaller than
    [0.1] in absolute value, and 'Unstable' as soon as one of the last ten
    is [NaN]. *)
Theorem stability_status_readings c :
  (getStabilityStatus c = "Initializing"%string
   <-> (List.length (errorHistory c) < 10)%nat)
  /\ (forall pre recent,
        errorHistory c = pre ++ recent -> List.length recent = 10%nat ->
        Forall (fun e => (abs e <? Fin 0.1)%num = true) recent ->
        getStabilityStatus c = "Very Stable"%string)
  /\ (forall pre recent,
        errorHistory c = pre ++ recent -> List.length recent = 10%nat ->
        In NaN recent ->
        getStabilityStatus c = "Unstable"%string).
Proof.
  split; [|split].
  - unfold getStabilityStatus.
    destruct (Z.of_nat (List.length (errorHistory c)) <? 10)%Z eqn:E.
    + apply Z.ltb_lt in E. split; [lia | reflexivity].
    + apply Z.ltb_ge in E. split; [|lia].
      cbv zeta.
      repeat match goal with
             | |- context [if ?b then _ else _] => destruct b
             end; discriminate.
  - intros pre recent Eh Hl Hf. unfold getStabilityStatus. rewrite Eh.
    assert (Hne : recent <> []) by (destruct recent; [discriminate|congruence]).
    rewrite length_app, Hl.
    replace (Z.of_nat (List.length pre + 10) <? 10)%Z with false
      by (symmetry; apply Z.ltb_ge; lia).
    pose proof (slice_suffix pre recent Hne) as Es. rewrite Hl in Es.
    change (- Z.of_nat 10)%Z with (-10)%Z in Es. cbv zeta. rewrite !Es.
    destruct (sum_abs_below 0.1 recent 0 Hf) as (s & -> & _ & Hs).
    specialize (Hs Hne). rewrite Hl in *.
    replace (Fin s / of_nat 10 <? Fin 0.1)%num with true; [reflexivity|].
    symmetry.
    change (Fin s / of_nat 10 <? Fin 0.1)%num
      with (Qltb (s / inject_Z (Z.of_nat 10)) 0.1).
    apply Qltb_true. apply Qlt_shift_div_r; [reflexivity|]. lra.
  - intros pre recent Eh Hl Hin. unfold getStabilityStatus. rewrite Eh.
    assert (Hne : recent <> []) by (destruct recent; [discriminate|congruence]).
    rewrite length_app, Hl.
    replace (Z.of_nat (List.length pre + 10) <? 10)%Z with false
      by (symmetry; apply Z.ltb_ge; lia).
    pose proof (slice_suffix pre recent Hne) as Es. rewrite Hl in Es.
    change (- Z.of_nat 10)%Z with (-10)%Z in Es. cbv zeta. rewrite !Es.
    rewrite (sum_abs_NaN recent (Fin 0) Hin). reflexivity.
Qed.
End Stability.

(** ** The basic controller's metrics *)

Section BasicMetrics.
Import Basic.

Lemma settling_scan_quiet thr l : forall i,
  Forall (fun e => (abs e >? thr) = false) l ->
  settling_scan thr l i = (-1)%Z.
Proof.
  induction l as [|e l IH]; intros i H; [reflexivity|].
  inversion H as [|? ? He Hl]; subst. cbn [settling_scan].
  rewrite He. now apply IH.
Qed.

Lemma settling_scan_hit thr post e rest : forall i,
  Forall (fun e => (abs e >? thr) = false) post ->
  (abs e >? thr) = true ->
  settling_scan thr (post ++ e :: rest) i
  = (i - Z.of_nat (List.length post))%Z.
Proof.
  induction post as [|x post IH]; intros i H He.
  - cbn. rewrite He. lia.
  - inversion H as [|? ? Hx Hp]; subst.
    cbn [app settling_scan]. rewrite Hx, (IH _ Hp He).
    cbn [List.length]. lia.
Qed.

(** X12. [getSettlingTime] of the basic controller is [0] when no recorded
    error exceeds the threshold of 2% of [|setpoint|]; otherwise it is
    [0.016] times the number of samples from the last error that exceeds the
    threshold to the end of the history, that error included. *)
Theorem settling_time_counts_quiet_tail c :
  let threshold := Fin 0.02 * abs (setpoint c) in
  (Forall (fun e => (abs e >? threshold) = false) (errorHistory c) ->
   getSettlingTime c = Fin 0)
  /\ (forall pre e post,
        errorHistory c = pre ++ e :: post ->
        (abs e >? threshold) = true ->
        Forall (fun x => (abs x >? threshold) = false) post ->
        getSettlingTime c
        = of_Z (Z.of_nat (List.length post) + 1) * Fin 0.016).
Proof.
  cbv zeta. split.
  - intro H. unfold getSettlingTime. cbv zeta.
    rewrite settling_scan_quiet; [reflexivity|].
    apply Forall_rev. exact H.
  - intros pre e post Eh He Hp. unfold getSettlingTime. cbv zeta.
    rewrite Eh, rev_app_distr. cbn [rev]. rewrite <- app_assoc.
    cbn [app].
    rewrite settling_scan_hit; [|now apply Forall_rev|exact He].
    rewrite length_rev, length_app. cbn [List.length].
    replace (Z.of_nat (List.length pre + Datatypes.S (List.length post)) - 1
             - Z.of_nat (List.length post))%Z
      with (Z.of_nat (List.length pre)) by lia.
    replace (Z.of_nat (List.length pre) =? -1)%Z with false
      by (symmetry; apply Z.eqb_neq; lia).
    replace (Z.of_nat (List.length pre + Datatypes.S (List.length post))
             - Z.of_nat (List.length pre))%Z
      with (Z.of_nat (List.length post) + 1)%Z by lia.
    reflexivity.
Qed.

(** X13. [getErrorTrend(samples)] of the basic controller is [0] when the
    history holds fewer than, or exactly, [samples] errors; with more it is
    the mean of the last [samples] errors minus the mean of the (at most
    [samples]) errors recorded just before them. *)
Theorem error_trend_compares_windows c samples :
  ((Z.of_nat (List.length (errorHistory c)) < samples)%Z ->
   getErrorTrend c (Some samples) = Fin 0)
  /\ (Z.of_nat (List.length (errorHistory c)) = samples ->
      getErrorTrend c (Some samples) = Fin 0)
  /\ (forall pre older recent,
        errorHistory c = pre ++ older ++ recent ->
        samples = Z.of_nat (List.length recent) ->
        older <> [] ->
        (List.length older <= List.length recent)%nat ->
        pre = [] \/ List.length older = List.length recent ->
        getErrorTrend c (Some samples)
        = fold_left (fun a b => a + b) recent (Fin 0)
          / of_nat (List.length recent)
          - fold_left (fun a b => a + b) older (Fin 0)
            / of_nat (List.length older)).
Proof.
  split; [|split].
  - intro H. unfold getErrorTrend. cbv zeta.
    now replace (Z.of_nat (List.length (errorHistory c)) <? samples)%Z
      with true by (symmetry; apply Z.ltb_lt; exact H).
  - intro H. unfold getErrorTrend. cbv zeta.
    replace (Z.of_nat (List.length (errorHistory c)) <? samples)%Z
      with false by (symmetry; apply Z.ltb_ge; lia).
    destruct (errorHistory c) as [|e l] eqn:Eh.
    + cbn in H. subst samples. reflexivity.
    + pose proof (slice_window [] [] (e :: l) ltac:(discriminate)
                    ltac:(cbn; lia) (or_introl eq_refl)) as Es.
      cbn [app] in Es. rewrite <- H. rewrite Es. reflexivity.
  - intros pre older recent Eh Hs Ho Hle Hpre. unfold getErrorTrend.
    cbv zeta.
    assert (Hr : recent <> [])
      by (destruct recent; [destruct older; [congruence|cbn in Hle; lia]
                           |discriminate]).
    rewrite Eh, !length_app.
    replace (Z.of_nat (List.length pre
                       + (List.length older + List.length recent))
             <? samples)%Z
      with false by (symmetry; apply Z.ltb_ge; lia).
    rewrite Hs, (slice_window pre older recent Hr Hle Hpre).
    rewrite app_assoc, (slice_suffix (pre ++ older) recent Hr).
    destruct older as [|o older']; [congruence|]. reflexivity.
Qed.
End BasicMetrics.

Section Overshoot.
Import Basic.
Local Open Scope Q_scope.

Lemma fold_max_finite (l : list Q) : forall a : Q,
  exists m, fold_left max (map Fin l) (Fin a) = Fin m
            /\ a <= m /\ Forall (fun q => q <= m) l
            /\ (m == a \/ Exists (fun q => q == m) l).
Proof.
  induction l as [|x l IH]; intro a.
  - exists a. cbn. repeat split; auto; lra.
  - cbn [map fold_left max].
    destruct (IH (Qmaxb a x)) as (m & E & Hm & Hall & Hex).
    exists m. split; [exact E|].
    destruct (Qmaxb_cases a x) as [[H1 H2]|[H1 H2]]; rewrite H2 in *.
    + split; [lra|]. split; [constructor; [lra|exact Hall]|].
      right. destruct Hex as [Hex|Hex];
        [apply Exists_cons_hd; symmetry; exact Hex
        |apply Exists_cons_tl; exact Hex].
    + split; [lra|]. split; [constructor; [lra|exact Hall]|].
      destruct Hex as [Hex|Hex];
        [left; exact Hex|right; apply Exists_cons_tl; exact Hex].
Qed.

Lemma max_of_finite (l : list Q) :
  l <> [] ->
  exists m, max_of (map Fin l) = Fin m
            /\ Forall (fun q => q <= m) l /\ Exists (fun q => q == m) l.
Proof.
  destruct l as [|x l]; [congruence|]. intros _.
  unfold max_of. cbn [map fold_left max].
  destruct (fold_max_finite l x) as (m & E & Hm & Hall & Hex).
  exists m. split; [exact E|]. split; [constructor; assumption|].
  destruct Hex as [Hex|Hex];
    [apply Exists_cons_hd; symmetry; exact Hex
    |apply Exists_cons_tl; exact Hex].
Qed.

Lemma or_one_positive (s : Q) :
  exists r, or_one (abs (Fin s)) = Fin r /\ 0 < r
            /\ (s == 0 -> r = 1) /\ (~ s == 0 -> r = Qabs s).
Proof.
  cbn [abs or_one]. destruct (Qeq_bool (Qabs s) 0) eqn:E.
  - exists 1. apply Qeq_bool_iff in E.
    split; [reflexivity|]. split; [reflexivity|]. split; [reflexivity|].
    intro H. exfalso. apply H.
    revert E. apply Qabs_case; intros; lra.
  - exists (Qabs s). split; [reflexivity|].
    assert (N : ~ Qabs s == 0)
      by (intro H; apply Qeq_bool_iff in H; congruence).
    pose proof (Qabs_nonneg s). split; [lra|]. split; [|reflexivity].
    intro Hs. exfalso. apply N. rewrite Hs. reflexivity.
Qed.

(** X14. [getOvershoot] of the basic controller is [0] with fewer than ten
    recorded errors; with ten or more finite errors it is the largest
    [|error| / r * 100] over the history, where [r] is [|setpoint|], or [1]
    when the setpoint is zero. *)
Theorem overshoot_is_largest_error_percentage c :
  ((List.length (errorHistory c) < 10)%nat -> getOvershoot c = Fin 0)
  /\ (forall (errors : list Q) (s : Q),
        errorHistory c = map Fin errors -> setpoint c = Fin s ->
        (10 <= List.length errors)%nat ->
        exists m r,
          getOvershoot c = Fin m
          /\ (s == 0 -> r = 1) /\ (~ s == 0 -> r = Qabs s)
          /\ Forall (fun e => Qabs e / r * 100 <= m) errors
          /\ Exists (fun e => Qabs e / r * 100 == m) errors).
Proof.
  split.
  - intro H. unfold getOvershoot.
    now replace (Z.of_nat (List.length (errorHistory c)) <? 10)%Z
      with true by (symmetry; apply Z.ltb_lt; lia).
  - intros errors s Eh Es Hlen. unfold getOvershoot. cbv zeta.
    rewrite Eh, Es, length_map.
    replace (Z.of_nat (List.length errors) <? 10)%Z
      with false by (symmetry; apply Z.ltb_ge; lia).
    destruct (or_one_positive s) as (r & -> & Hr & R0 & R1).
    assert (Em : map abs (map Fin errors) = map Fin (map Qabs errors))
      by (rewrite !map_map; reflexivity).
    rewrite Em.
    assert (Hne : map Qabs errors <> [])
      by (destruct errors; [cbn in Hlen; lia|discriminate]).
    destruct (max_of_finite (map Qabs errors) Hne) as (m & -> & Hall & Hex).
    exists (m / r * 100), r.
    assert (Hd : (Fin m / Fin r * Fin 100)%num = Fin (m / r * 100)).
    { cbn [div mul]. destruct (r ?= 0) eqn:C; [|reflexivity|reflexivity].
      apply Qeq_alt in C. lra. }
    split; [exact Hd|]. split; [exact R0|]. split; [exact R1|].
    assert (Hmono : forall a, a <= m -> a / r * 100 <= m / r * 100).
    { intros a Ha. apply Qmult_le_compat_r; [|discriminate].
      unfold Qdiv. apply Qmult_le_compat_r; [exact Ha|].
      apply Qlt_le_weak, Qinv_lt_0_compat, Hr. }
    split.
    + rewrite Forall_map in Hall. eapply Forall_impl; [|exact Hall].
      intros a Ha. now apply Hmono.
    + rewrite Exists_map in Hex. eapply Exists_impl; [|exact Hex].
      intros a Ha. cbv beta in Ha. rewrite Ha. reflexivity.
Qed.
End Overshoot.

(** ** The enhanced controller's error trend *)

Section Regression.
Import Enhanced.
Local Open Scope Q_scope.







End Regression.

(** ** The data of the performance graph *)

Section GraphData.
Import Graph.

Lemma addDataPoint_aligned g now angle error output setpoint :
  aligned g -> aligned (addDataPoint g now angle error output setpoint).
Proof.
  intros (H1 & H2 & H3 & H4 & H5). unfold aligned, addDataPoint. cbv zeta.
  destruct (_ >? _)%Z eqn:E;
    cbn [timeData angleData errorData outputData setpointData maxDataPoints];
    rewrite ?length_tl, !length_app in *; cbn [List.length] in *.
  - repeat split; lia.
  - rewrite Z.gtb_ltb in E. apply Z.ltb_ge in E. repeat split; lia.
Qed.

Lemma call_aligned g k :
  (0 <= maxDataPoints g)%Z -> aligned g ->
  (0 <= maxDataPoints (call g k))%Z /\ aligned (call g k).
Proof.
  intros Hm H. destruct k as [now a e o s|now|a b c0].
  - split; [|now apply addDataPoint_aligned].
    cbn [call]. unfold addDataPoint. cbv zeta.
    destruct (_ >? _)%Z; exact Hm.
  - split; [exact Hm|]. cbn. unfold aligned. cbn. repeat split; lia.
  - split; [exact Hm|]. exact H.
Qed.

(** X16. The five data arrays of [PerformanceGraph] stay aligned: from a
    new graph, or from any graph whose arrays have the same length within a
    non-negative [maxDataPoints], every sequence of [addDataPoint], [clear]
    and [setDisplayOptions] leaves five arrays of one common length, at most
    [maxDataPoints]; and with room for at least one point, the sample just
    added is the last entry of each array. *)
Theorem graph_series_stay_aligned :
  (forall now calls, aligned (run (constructor now) calls))
  /\ (forall g calls,
        (0 <= maxDataPoints g)%Z -> aligned g -> aligned (run g calls))
  /\ (forall g now angle error output setpoint,
        (1 <= maxDataPoints g)%Z -> aligned g ->
        let g' := addDataPoint g now angle error output setpoint in
        exists ts angles errors outputs,
          timeData g' = ts ++ [of_Z (now - startTime g) / Fin 1000]
          /\ angleData g' = angles ++ [angle]
          /\ errorData g' = errors ++ [error]
          /\ outputData g' = outputs ++ [output]).
Proof.
  assert (R : forall g calls,
             (0 <= maxDataPoints g)%Z -> aligned g -> aligned (run g calls)).
  { intros g calls Hm H. unfold run.
    apply (fold_left_invariant
             (fun g => (0 <= maxDataPoints g)%Z /\ aligned g) call);
      [|now split].
    intros a b [? ?]. now apply call_aligned. }
  split; [|split; [exact R|]].
  - intros now calls. apply R; [cbn; lia|].
    unfold aligned. cbn. repeat split; lia.
  - intros g now angle error output setpoint Hm (H1 & H2 & H3 & H4 & H5).
    cbv zeta. unfold addDataPoint. cbv zeta.
    destruct (_ >? _)%Z eqn:E;
      cbn [timeData angleData errorData outputData].
    + rewrite length_app in E. cbn [List.length] in E.
      destruct (timeData g) as [|t ts]; [cbn in E; lia|].
      destruct (angleData g) as [|a as_]; [discriminate|].
      destruct (errorData g) as [|e es]; [discriminate|].
      destruct (outputData g) as [|o os]; [discriminate|].
      exists ts, as_, es, os. cbn. auto.
    + do 4 eexists. repeat split; reflexivity.
Qed.

(** X17. With at least one sample, finite non-negative times and a finite
    non-negative [timeWindow], [calculateTimeRange] returns a range that
    starts at or after [0], ends at the largest recorded time, and is no
    wider than [timeWindow]. *)
Theorem time_range_spans_at_most_the_window g (times : list Q) (tw : Q) :
  timeData g = map Fin times -> times <> [] ->
  Forall (fun t => (0 <= t)%Q) times ->
  timeWindow g = Fin tw -> (0 <= tw)%Q ->
  exists lo hi,
    calculateTimeRange g = (Fin lo, Fin hi)
    /\ (0 <= lo)%Q /\ (lo <= hi)%Q /\ (hi - lo <= tw)%Q
    /\ Forall (fun t => (t <= hi)%Q) times.
Proof.
  intros Et Hne Hpos Ew Htw. unfold calculateTimeRange.
  rewrite Et, Ew, length_map.
  destruct times as [|t times]; [congruence|].
  cbn [List.length Nat.eqb]. cbv zeta. unfold max_of.
  cbn [map fold_left max].
  destruct (fold_max_finite times t) as (m & -> & Hm & Hall & _).
  inversion Hpos as [|? ? Ht Hts]; subst.
  cbn [sub max].
  exists (Qmaxb 0 (m - tw)), m. split; [reflexivity|].
  destruct (Qmaxb_cases 0 (m - tw)) as [[H1 H2]|[H1 H2]]; rewrite H2;
    (repeat split; try lra); constructor; assumption.
Qed.
End GraphData.

(** ** The direction of the first output *)

Section Direction.
Import Enhanced EnhancedCalls EnhancedForm.
Local Open Scope Q_scope.






End Direction.

(** ** The further properties at concrete inputs *)

Lemma sin_cubic_zero a : is_zero a = true -> is_zero (sin_cubic a) = true.
Proof.
  destruct a as [| | |q]; try discriminate. cbn [is_zero sin_cubic].
  intro H. apply Qeq_bool_iff in H. apply Qeq_bool_iff.
  rewrite H. reflexivity.
Qed.


Lemma basic_update_number_iff_clock_stalled_witness :
  let c := Basic.constructor 16 None None None in
  (16 <= Basic.lastTime c)%Z
  /\ Basic.update c 16 (Fin 3) = (c, Basic.RNumber (Fin 0)).
Proof.
  split; [cbn; lia|].
  exact (proj1 (basic_update_number_iff_clock_stalled
                  (Basic.constructor 16 None None None) 16%Z (Fin 3))
           (Z.le_refl 16)).
Defined.


Lemma calculate_NaN_latches_witness :
  let c := Enhanced.set_integral NaN (Enhanced.constructor 0 0 None None None) in
  Enhanced.integral c = NaN
  /\ snd (Enhanced.calculate c 16 16 (Fin 0) (Fin 1) None) = NaN.
Proof.
  split; [reflexivity|].
  exact (proj2
           (proj1 (proj2 calculate_NaN_latches)
              (Enhanced.set_integral NaN
                 (Enhanced.constructor 0 0 None None None))
              16%Z 16%Z (Fin 0) (Fin 1) None eq_refl)).
Defined.

Lemma metrics_report_last_call_witness :
  let c := Enhanced.constructor 0 0 None None None in
  history_inv c
  /\ Enhanced.m_currentError
       (Enhanced.getPerformanceMetrics (fun x => x)
          (fst (Enhanced.calculate c 16 16 (Fin 0) (Fin 2) None)))
     = Fin 0 - Fin 2.
Proof.
  assert (H : history_inv (Enhanced.constructor 0 0 None None None))
    by (split; [reflexivity | split; [cbn; lia | reflexivity]]).
  split; [exact H|].
  exact (proj1 (metrics_report_last_call (fun x => x)
                  (Enhanced.constructor 0 0 None None None) 16%Z 16%Z
                  (Fin 0) (Fin 2) None H)).
Defined.


Lemma trail_is_fresh_and_bounded_witness :
  let r := Robot1.constructor (Fin 800) (Fin 600) None (0, 0)%Z 0 in
  (Robot1.lastTime r < 16)%Z
  /\ Forall (fun p => (16 - Robot1.time p < 3000)%Z)
       (Robot1.trail (Robot1.update sin_cubic r 16)).
Proof.
  split; [reflexivity|].
  exact (proj1
           (proj2 (trail_is_fresh_and_bounded sin_cubic)
              (Robot1.constructor (Fin 800) (Fin 600) None (0, 0)%Z 0) 16%Z
              eq_refl)).
Defined.

Lemma upright_rest_is_kept_witness :
  let r := Robot1.constructor (Fin 800) (Fin 600) None (0, 0)%Z 0 in
  at_rest r = true
  /\ num_eq
       (Robot1.angle (fold_left (Robot1.update sin_cubic) [16; 32; 48]%Z r))
       (Fin 0).
Proof.
  split; [reflexivity|].
  exact (proj1
           (proj2
              (upright_rest_is_kept sin_cubic sin_cubic_zero
                 (Robot1.constructor (Fin 800) (Fin 600) None (0, 0)%Z 0)
                 [16; 32; 48]%Z eq_refl))).
Defined.

Lemma animate_never_applies_the_output_witness :
  let app :=
    App.mkApp
      (Robot1.constructor (Fin 800) (Fin 600) None (0, 0)%Z 0) true 0 in
  let clk := App.mkClock 16 16 17 17 in
  let clk' := App.mkClock 32 32 33 33 in
  App.isRunning app = true
  /\ (App.t_robot clk < App.t_robot clk')%Z
  /\ Robot1.angle
       (App.robot (App.animate sin_cubic (App.animate sin_cubic app clk) clk'))
     = NaN.
Proof.
  split; [reflexivity | split; [reflexivity|]].
  exact (proj1
           (proj2
              (animate_never_applies_the_output sin_cubic
                 (App.mkApp
                    (Robot1.constructor (Fin 800) (Fin 600) None (0, 0)%Z 0)
                    true 0)
                 (App.mkClock 16 16 17 17) eq_refl)
              (App.mkClock 32 32 33 33) eq_refl)).
Defined.

Lemma stability_status_readings_witness :
  let recent := repeat (Fin 0.05) 10 in
  let c :=
    Enhanced.set_errorHistory ([Fin 7] ++ recent)
      (Enhanced.constructor 0 0 None None None) in
  forallb (fun e => abs e <? Fin 0.1) recent = true
  /\ Enhanced.getStabilityStatus c = "Very Stable"%string.
Proof.
  split; [reflexivity|].
  refine (proj1 (proj2 (stability_status_readings
                         (Enhanced.set_errorHistory
                            ([Fin 7] ++ repeat (Fin 0.05) 10)
                            (Enhanced.constructor 0 0 None None None))))
            [Fin 7] (repeat (Fin 0.05) 10) eq_refl eq_refl _).
  apply Forall_forall. intros e He.
  apply repeat_spec in He. subst e. reflexivity.
Defined.

Lemma settling_time_counts_quiet_tail_witness :
  let c :=
    Basic.set_errorHistory [Fin 0; Fin 1; Fin 0; Fin 0]
      (Basic.constructor 0 None None None) in
  (abs (Fin 1) >? Fin 0.02 * abs (Basic.setpoint c)) = true
  /\ Basic.getSettlingTime c = of_Z (2 + 1) * Fin 0.016.
Proof.
  split; [reflexivity|].
  refine (proj2 (settling_time_counts_quiet_tail
                   (Basic.set_errorHistory [Fin 0; Fin 1; Fin 0; Fin 0]
                      (Basic.constructor 0 None None None)))
            [Fin 0] (Fin 1) [Fin 0; Fin 0] eq_refl eq_refl _).
  repeat constructor.
Defined.

Lemma error_trend_compares_windows_witness :
  let c :=
    Basic.set_errorHistory [Fin 9; Fin 1; Fin 2; Fin 3; Fin 4]
      (Basic.constructor 0 None None None) in
  num_eq (Basic.getErrorTrend c (Some 2%Z)) (Fin 2).
Proof.
  cbv zeta.
  rewrite (proj2 (proj2 (error_trend_compares_windows
                   (Basic.set_errorHistory [Fin 9; Fin 1; Fin 2; Fin 3; Fin 4]
                      (Basic.constructor 0 None None None)) 2%Z))
            [Fin 9] [Fin 1; Fin 2] [Fin 3; Fin 4] eq_refl eq_refl
            ltac:(discriminate) (le_n 2) (or_intror eq_refl)).
  vm_compute. reflexivity.
Defined.

Lemma overshoot_is_largest_error_percentage_witness :
  let errors := [1; 2; -3; 0; 0; 0; 0; 0; 0; 1]%Q in
  let c :=
    Basic.set_errorHistory (map Fin errors)
      (Basic.constructor 0 None None None) in
  (10 <= List.length errors)%nat
  /\ exists m, Basic.getOvershoot c = Fin m.
Proof.
  split; [cbn; lia|].
  destruct (proj2 (overshoot_is_largest_error_percentage
                     (Basic.set_errorHistory
                        (map Fin [1; 2; -3; 0; 0; 0; 0; 0; 0; 1]%Q)
                        (Basic.constructor 0 None None None)))
              [1; 2; -3; 0; 0; 0; 0; 0; 0; 1]%Q 0%Q eq_refl eq_refl
              (le_n 10)) as (m & r & E & _).
  exists m. exact E.
Defined.


Lemma graph_series_stay_aligned_witness :
  let g := Graph.addDataPoint (Graph.constructor 0) 16 (Fin 1) (Fin 2) (Fin 3) None in
  (0 <= Graph.maxDataPoints g)%Z
  /\ Graph.aligned
       (Graph.run g [Graph.AddDataPoint 32 (Fin 4) (Fin 5) (Fin 6) None;
                     Graph.SetDisplayOptions true false true]).
Proof.
  split; [cbn; lia|].
  refine (proj1 (proj2 graph_series_stay_aligned)
            (Graph.addDataPoint (Graph.constructor 0) 16 (Fin 1) (Fin 2)
               (Fin 3) None)
            [Graph.AddDataPoint 32 (Fin 4) (Fin 5) (Fin 6) None;
             Graph.SetDisplayOptions true false true] _ _).
  - cbn. lia.
  - unfold Graph.aligned. cbn. repeat split; lia.
Defined.

Lemma time_range_spans_at_most_the_window_witness :
  let g :=
    Graph.addDataPoint
      (Graph.addDataPoint (Graph.constructor 0) 16000 (Fin 1) (Fin 2) (Fin 3)
         None)
      32000 (Fin 1) (Fin 2) (Fin 3) None in
  exists lo hi,
    Graph.calculateTimeRange g = (Fin lo, Fin hi)
    /\ (0 <= lo)%Q /\ (lo <= hi)%Q /\ (hi - lo <= 10)%Q.
Proof.
  destruct (time_range_spans_at_most_the_window
              (Graph.addDataPoint
                 (Graph.addDataPoint (Graph.constructor 0) 16000 (Fin 1)
                    (Fin 2) (Fin 3) None)
                 32000 (Fin 1) (Fin 2) (Fin 3) None)
              [inject_Z 16000 / 1000; inject_Z 32000 / 1000]%Q 10%Q eq_refl
              ltac:(discriminate)
              ltac:(repeat constructor; vm_compute; discriminate)
              eq_refl ltac:(vm_compute; discriminate))
    as (lo & hi & E & H0 & H1 & H2 & _).
  exists lo, hi. auto.
Defined.

